(** * Translation orchestration: containers, failover, pacing, batching, context

    A shallow embedding of the translation orchestration code of the
    manga translator (translator/base.py, translator/rate_limiter.py,
    translator/service.py, knowledge/context_manager.py) together with
    the properties established about it.

    Conventions of the embedding.
    - Python [int] is [Z]; Python [float] timestamps and durations are
      exact rationals [Q] (rounding of the machine floats is not modelled).
    - Python [str] is [string]; a character stands for one code point
      (only code points below 256 are representable).
    - [time.monotonic()] is an oracle: the state carries the sequence of
      values the clock returns and the number of reads made so far.
    - Mutable objects held by reference (the containers of a translator,
      the text blocks handed to the service) are positions in a list.
    - Exceptions are values of [PyExc]; a call that may raise returns an
      [Outcome]. *)

From Stdlib Require Import ZArith QArith Lqa String Ascii List Lia Bool.
From stdpp Require Import base list gmap strings.
Import ListNotations.
Local Open Scope Z_scope.

(* ------------------------------------------------------------------ *)
(** ** Python primitives *)
(* ------------------------------------------------------------------ *)

Module Py.

(** [a < b] on floats. *)
Definition Qltb (x y : Q) : bool := negb (Qle_bool y x).

(** Builtin [max(a, b)]: the first argument wins unless [b > a]. *)
Definition max (a b : Q) : Q := if Qltb a b then b else a.

(** Builtin [min(a, b)]: the first argument wins unless [b < a]. *)
Definition min (a b : Q) : Q := if Qltb b a then b else a.

(** Truth value of a float: zero is falsy. *)
Definition truthy_float (x : Q) : bool := negb (Qeq_bool x 0).

(** Truth value of a string and of a list: empty is falsy. *)
Definition truthy_str (s : string) : bool :=
  match s with EmptyString => false | _ => true end.

Definition truthy_list {A} (l : list A) : bool :=
  match l with [] => false | _ => true end.

(** [len(s)]. *)
Definition len (s : string) : Z := Z.of_nat (String.length s).

(** [str.isspace] on one code point below 256: TAB, LF, VT, FF, CR,
    FS, GS, RS, US, SPACE, NEL and NBSP. *)
Definition isspace (c : ascii) : bool :=
  let n := nat_of_ascii c in
  ((9 <=? n) && (n <=? 13) || (28 <=? n) && (n <=? 32)
   || (n =? 133) || (n =? 160))%nat.

(** [str.lstrip()], [str.rstrip()] and [str.strip()] without argument. *)
Fixpoint lstrip (s : string) : string :=
  match s with
  | EmptyString => EmptyString
  | String c s' => if isspace c then lstrip s' else s
  end.

Fixpoint rstrip (s : string) : string :=
  match s with
  | EmptyString => EmptyString
  | String c s' =>
      match rstrip s' with
      | EmptyString => if isspace c then EmptyString else String c EmptyString
      | r => String c r
      end
  end.

Definition strip (s : string) : string := rstrip (lstrip s).

(** [str.lower()] on one code point below 256: the letters A-Z and
    the Latin-1 capitals (0xC0-0xDE without the multiplication sign). *)
Definition lower_char (c : ascii) : ascii :=
  let n := nat_of_ascii c in
  if ((65 <=? n) && (n <=? 90)
      || (192 <=? n) && (n <=? 222) && negb (n =? 215))%nat
  then ascii_of_nat (n + 32) else c.

Fixpoint lower (s : string) : string :=
  match s with
  | EmptyString => EmptyString
  | String c s' => String (lower_char c) (lower s')
  end.

(** [s.startswith(p)]. *)
Fixpoint startswith (s p : string) : bool :=
  match p, s with
  | EmptyString, _ => true
  | String _ _, EmptyString => false
  | String a p', String b s' => if Ascii.eqb a b then startswith s' p' else false
  end.

(** [s.replace(old, new)] for a non-empty [old]: the non-overlapping
    occurrences are replaced from left to right.  [skip] counts the
    characters of an occurrence still to be dropped. *)
Fixpoint replace_from (skip : nat) (s old new : string) : string :=
  match s with
  | EmptyString => EmptyString
  | String c s' =>
      match skip with
      | S k => replace_from k s' old new
      | O =>
          if startswith s old
          then (new ++ replace_from (String.length old - 1) s' old new)%string
          else String c (replace_from O s' old new)
      end
  end.

Definition replace (s old new : string) : string := replace_from O s old new.

(** The slice [l[start:]] for a Python integer [start]: a negative
    index counts from the end, and the result is clamped to the list. *)
Definition slice_from {A} (start : Z) (l : list A) : list A :=
  let n := Z.of_nat (length l) in
  let lo := if start <? 0 then Z.max (start + n) 0 else Z.min start n in
  drop (Z.to_nat lo) l.

(** The slice [l[:stop]] for a Python integer [stop]. *)
Definition slice_to {A} (stop : Z) (l : list A) : list A :=
  let n := Z.of_nat (length l) in
  let hi := if stop <? 0 then Z.max (stop + n) 0 else Z.min stop n in
  take (Z.to_nat hi) l.

(** [sub in s]: [sub] occurs in [s] as a substring. *)
Fixpoint contains (sub s : string) : bool :=
  startswith s sub
  || match s with
     | EmptyString => false
     | String _ s' => contains sub s'
     end.

End Py.

(* ------------------------------------------------------------------ *)
(** ** Exceptions (translator/errors.py, translator/base.py) *)
(* ------------------------------------------------------------------ *)

(** The exception classes the orchestration code raises or catches.
    [LimitedModeError] and [TranslationError] both derive directly from
    [Exception]; [OtherException] stands for any other [Exception]
    subclass an engine adapter may raise.  The second argument of
    [TranslationError] is its [__cause__] ([raise ... from exc]). *)
#[warnings="-register-all"]
Inductive PyExc : Type :=
| LimitedModeError (status_code : option Z) (message : string)
| TranslationError (message : string) (cause : option PyExc)
| ValueError (message : string)
| OtherException (message : string).

(** [str(exc)]. *)
Definition str (e : PyExc) : string :=
  match e with
  | LimitedModeError _ m => m
  | TranslationError m _ => m
  | ValueError m => m
  | OtherException m => m
  end.

Inductive Outcome (A : Type) : Type :=
| Return (a : A)
| Raise (e : PyExc).
Arguments Return {A} a.
Arguments Raise {A} e.

(* ------------------------------------------------------------------ *)
(** ** TranslatorContainer (translator/base.py) *)
(* ------------------------------------------------------------------ *)

Module Container.

Record TranslatorContainer : Type := mkContainer {
  name : string;
  is_primary : bool;
  block_timeout_sec : Q;
  max_failures : Z;
  fail_uses : Z;
  blocked_until : option Q;
  last_used_at : Q;
  extra : gmap string string
}.

Definition set_fail_uses (v : Z) (c : TranslatorContainer) :=
  mkContainer (name c) (is_primary c) (block_timeout_sec c) (max_failures c)
              v (blocked_until c) (last_used_at c) (extra c).

Definition set_blocked_until (v : option Q) (c : TranslatorContainer) :=
  mkContainer (name c) (is_primary c) (block_timeout_sec c) (max_failures c)
              (fail_uses c) v (last_used_at c) (extra c).

Definition set_last_used_at (v : Q) (c : TranslatorContainer) :=
  mkContainer (name c) (is_primary c) (block_timeout_sec c) (max_failures c)
              (fail_uses c) (blocked_until c) v (extra c).

(** Property [is_blocked]; [now] is the value [time.monotonic()]
    returns when the property is read. *)
Definition is_blocked (now : Q) (c : TranslatorContainer) : bool :=
  match blocked_until c with
  | None => false
  | Some b => Py.Qltb now b
  end.

(** [mark_success]; [t] is the clock value read for [last_used_at]. *)
Definition mark_success (t : Q) (c : TranslatorContainer) : TranslatorContainer :=
  set_last_used_at t (set_blocked_until None (set_fail_uses 0 c)).

(** [mark_failure]; [t1] is the clock value read for [last_used_at],
    [t2] the one read for [blocked_until] (read only when the failure
    limit is reached). *)
Definition mark_failure (t1 t2 : Q) (c : TranslatorContainer) : TranslatorContainer :=
  let c1 := set_last_used_at t1 (set_fail_uses (fail_uses c + 1) c) in
  if max_failures c1 <=? fail_uses c1
  then set_blocked_until (Some (t2 + block_timeout_sec c1)%Q) c1
  else c1.

(** [restore]. *)
Definition restore (c : TranslatorContainer) : TranslatorContainer :=
  set_blocked_until None (set_fail_uses 0 c).

(** What can happen to a container between two looks at it, apart
    from a success or a restore: another failure, or its selection by
    [Translator._get_container], which stamps [last_used_at]. *)
Inductive Touch : Type :=
| Failure (t1 t2 : Q)
| Selected (t : Q).

Definition touch (c : TranslatorContainer) (op : Touch) : TranslatorContainer :=
  match op with
  | Failure t1 t2 => mark_failure t1 t2 c
  | Selected t => set_last_used_at t c
  end.

(** The clock values used by the operations are not before [t0]. *)
Definition not_before (t0 : Q) (op : Touch) : Prop :=
  match op with
  | Failure t1 t2 => (t0 <= t2)%Q
  | Selected t => (t0 <= t)%Q
  end.

End Container.

(* ------------------------------------------------------------------ *)
(** ** ContextManager (knowledge/context_manager.py) *)
(* ------------------------------------------------------------------ *)

Module Context.

Record ContextEntry : Type := mkEntry {
  original : string;
  translated : string
}.

Record ContextManager : Type := mkManager {
  _max_length : Z;
  _history : list ContextEntry
}.

(** [add_segment]: append, then keep the last [_max_length] entries
    when the history has grown beyond that. *)
Definition add_segment (original translated : string) (self : ContextManager)
  : ContextManager :=
  let h := _history self ++ [mkEntry original translated] in
  if _max_length self <? Z.of_nat (length h)
  then mkManager (_max_length self) (Py.slice_from (- _max_length self) h)
  else mkManager (_max_length self) h.

(** [get_recent_context]: [self._history[-limit:].copy()], as the list
    of entries it denotes ([Heap] below has the references). *)
Definition get_recent_context (limit : Z) (self : ContextManager)
  : list ContextEntry :=
  Py.slice_from (- limit) (_history self).

(** [clear]. *)
Definition clear (self : ContextManager) : ContextManager :=
  mkManager (_max_length self) [].

(** Objects and references.  The entries are objects in a store; the
    history of the manager and the list handed out by
    [get_recent_context] hold references to them (positions in the
    store).  [.copy()] makes a new list of the same references. *)
Record Heap : Type := mkHeap {
  store : list ContextEntry;
  history : list nat;
  snapshot : list nat
}.

(** The entries a list of references denotes. *)
Definition deref (h : Heap) (refs : list nat) : list ContextEntry :=
  omap (fun r => store h !! r) refs.

(** The history as the manager sees it. *)
Definition stored_history (h : Heap) : list ContextEntry := deref h (history h).

(** The heap right after [snapshot = manager.get_recent_context(limit)]. *)
Definition take_snapshot (limit : Z) (self : ContextManager) : Heap :=
  let refs := seq 0 (length (_history self)) in
  mkHeap (_history self) refs (Py.slice_from (- limit) refs).

(** What a holder of the snapshot can do to it as a list: append a
    reference, pop the last one (on an empty list [pop] raises and
    changes nothing), assign an item, clear. *)
Inductive ListMutation : Type :=
| Append (r : nat)
| Pop
| SetItem (i : nat) (r : nat)
| Clear.

Definition mutate_snapshot (h : Heap) (m : ListMutation) : Heap :=
  mkHeap (store h) (history h)
         (match m with
          | Append r => snapshot h ++ [r]
          | Pop => removelast (snapshot h)
          | SetItem i r => <[i := r]> (snapshot h)
          | Clear => []
          end).

(** Assigning the fields of the entry object [snapshot[i]]. *)
Definition mutate_entry (h : Heap) (i : nat) (e : ContextEntry) : Heap :=
  match snapshot h !! i with
  | Some r => mkHeap (<[r := e]> (store h)) (history h) (snapshot h)
  | None => h
  end.

(** [to_dict_list]: one dictionary per entry, with the keys
    ["original"] and ["translated"]. *)
Definition to_dict_list (self : ContextManager) : list (gmap string string) :=
  map (fun e => <["translated" := translated e]> (<["original" := original e]> ∅))
      (_history self).

(** [load_from_dict_list]: missing keys read as the empty string, and
    only the first [_max_length] items are kept. *)
Definition load_from_dict_list (data : list (gmap string string))
           (self : ContextManager) : ContextManager :=
  mkManager (_max_length self)
            (Py.slice_to (_max_length self)
               (map (fun item => mkEntry (default ""%string (item !! "original"%string))
                                         (default ""%string (item !! "translated"%string)))
                    data)).

End Context.

(* ------------------------------------------------------------------ *)
(** ** Title knowledge (knowledge/models.py) and project fields *)
(* ------------------------------------------------------------------ *)

Module Knowledge.

Record TitleMeta : Type := mkMeta {
  id : string;
  display_name : string;
  original_language : string;
  target_language : string
}.

Record Character : Type := mkCharacter {
  char_id : string;
  original_names : list string;
  char_display_name : string;
  gender : option string;
  role : option string;
  pronouns : option (list string);
  speech_style : option string
}.

Record Term : Type := mkTerm {
  source : string;
  target : string;
  term_type : option string;
  notes : option string;
  tags : list string
}.

Record StyleConfig : Type := mkStyle {
  tone : option string;
  honorifics_policy : option string;
  sfx_policy : option string;
  punctuation_style : option string;
  casing_style : option string;
  style_extra : gmap string string
}.

Record TitleKnowledge : Type := mkKnowledge {
  meta : TitleMeta;
  characters : list Character;
  terms : list Term;
  style : option StyleConfig
}.

(** The fields of [TitleProject] the service reads. *)
Record TitleProject : Type := mkProject {
  title_id : string;
  title_name : string;
  project_original_language : string;
  project_target_language : string;
  content_type : string;
  color_mode : string
}.

End Knowledge.

(* ------------------------------------------------------------------ *)
(** ** Requests, results, capabilities (translator/base.py) *)
(* ------------------------------------------------------------------ *)

Module Base.

Record TranslatorCapabilities : Type := mkCaps {
  supports_batch : bool;
  max_batch_size : Z;
  max_chars_per_request : option Z;
  max_chars_total : option Z;
  context_window : Z;
  attempt_delay_ms : Z
}.

(** The dictionary built by [_build_prompt_payload] (service.py). *)
Record PromptPayload : Type := mkPayload {
  p_text : string;
  p_src_lang : string;
  p_dst_lang : string;
  p_title_id : string;
  p_title_name : string;
  p_style : Knowledge.StyleConfig;
  p_characters : list Knowledge.Character;
  p_terms : list Knowledge.Term;
  p_recent_context : list Context.ContextEntry;
  p_content_type : string;
  p_color_mode : string
}.

Record TranslationRequest : Type := mkRequest {
  text : string;
  src_lang : string;
  dst_lang : string;
  prompt_data : option PromptPayload;
  context : option (list Context.ContextEntry);
  metadata : list (string * string)
}.

Record TranslationResult : Type := mkResult {
  translated_text : string;
  raw_response : option string;
  result_metadata : list (string * string)
}.

End Base.

(* ------------------------------------------------------------------ *)
(** ** Rate limiting records (translator/rate_limiter.py) *)
(* ------------------------------------------------------------------ *)

Module Limits.

Record RateLimitConfig : Type := mkConfig {
  min_interval_sec : Q;
  max_calls_per_min : Z;
  max_chars_per_request : Z
}.

Record BackoffState : Type := mkBackoff {
  penalty_delay_sec : Q;
  last_error_ts : Q;
  slow_mode : bool;
  slow_since : Q;
  notified : bool
}.

(** [BackoffState()]. *)
Definition fresh : BackoffState := mkBackoff 0 0 false 0 false.

Record RateLimiter : Type := mkLimiter {
  cfg : RateLimitConfig;
  _last_call_ts : Q;
  _window_start_ts : Q;
  _window_calls : Z
}.

End Limits.

(* ------------------------------------------------------------------ *)
(** ** Program state, observable effects, and the monad of procedures *)
(* ------------------------------------------------------------------ *)

(** The effects a run leaves behind, in order: a call of the concrete
    engine ([Translator._translate_request]) with the container it was
    given and how it ended, a [time.sleep], an invocation of the
    rate-limit callback of the service. *)
Inductive Event : Type :=
| EvCall (req : Base.TranslationRequest) (container : nat)
         (out : Outcome Base.TranslationResult)
| EvSleep (seconds : Q)
| EvCallback (engine_id : string).

(** What lies outside one translator and one service: the clock (the
    values successive reads return, and how many reads were made), the
    state of the remote services ([extern], opaque), and the module-level
    table [_BACKOFFS]. *)
Record World : Type := mkWorld {
  clock : nat -> Q;
  ticks : nat;
  extern : nat;
  backoffs : gmap string Limits.BackoffState
}.

Record State : Type := mkState {
  world : World;
  containers : list Container.TranslatorContainer;   (* Translator._containers *)
  ctx_manager : Context.ContextManager               (* TranslationService.ctx_manager *)
}.

Definition set_world (w : World) (s : State) : State :=
  mkState w (containers s) (ctx_manager s).
Definition set_containers (cs : list Container.TranslatorContainer) (s : State) : State :=
  mkState (world s) cs (ctx_manager s).
Definition set_ctx_manager (m : Context.ContextManager) (s : State) : State :=
  mkState (world s) (containers s) m.
Definition set_backoffs (b : gmap string Limits.BackoffState) (w : World) : World :=
  mkWorld (clock w) (ticks w) (extern w) b.

(** A procedure: from a state to a result, the state it leaves, and the
    events it produced. *)
Definition M (A : Type) : Type := State -> (A * State) * list Event.

Definition ret {A} (a : A) : M A := fun s => ((a, s), []).

Definition bind {A B} (m : M A) (k : A -> M B) : M B :=
  fun s =>
    let '((a, s1), e1) := m s in
    let '((b, s2), e2) := k a s1 in
    ((b, s2), e1 ++ e2).

Notation "x <- c ;; k" := (bind c (fun x => k))
  (at level 100, c at next level, right associativity).
Notation "c ;;; k" := (bind c (fun _ => k))
  (at level 100, right associativity).

Definition gets {A} (f : State -> A) : M A := fun s => ((f s, s), []).
Definition modify (f : State -> State) : M unit := fun s => ((tt, f s), []).
Definition emit (e : Event) : M unit := fun s => ((tt, s), [e]).

(** [time.monotonic()]. *)
Definition monotonic : M Q :=
  fun s =>
    let w := world s in
    ((clock w (ticks w),
      set_world (mkWorld (clock w) (S (ticks w)) (extern w) (backoffs w)) s), []).

(** [time.sleep(seconds)]. *)
Definition sleep (seconds : Q) : M unit := emit (EvSleep seconds).

(** The result, final state and events of a run. *)
Definition result {A} (r : (A * State) * list Event) : A := fst (fst r).
Definition final {A} (r : (A * State) * list Event) : State := snd (fst r).
Definition events {A} (r : (A * State) * list Event) : list Event := snd r.

(* ------------------------------------------------------------------ *)
(** ** Translator: container failover (translator/base.py) *)
(* ------------------------------------------------------------------ *)

Module Translator.
Import Container Base.

(** A translator instance.  [_translate_request] is the method the
    concrete engines implement: given the request and the container
    selected for it, it acts on the outside world and returns a result
    or raises.  The containers themselves live in the [State]. *)
Record Translator : Type := mkTranslator {
  engine_id : string;
  capabilities : TranslatorCapabilities;
  _translate_request :
    TranslationRequest -> nat -> World -> Outcome TranslationResult * World
}.

(** Calling the engine leaves an [EvCall] behind. *)
Definition call_engine (self : Translator) (request : TranslationRequest)
           (container : nat) : M (Outcome TranslationResult) :=
  fun s =>
    let '(out, w) := _translate_request self request container (world s) in
    ((out, set_world w s), [EvCall request container out]).

Definition update_container (i : nat)
           (f : TranslatorContainer -> TranslatorContainer) : M unit :=
  modify (fun s => set_containers (alter f i (containers s)) s).

(** [container.is_blocked]: the clock is read only when
    [blocked_until] is set. *)
Definition is_blocked_m (i : nat) : M bool :=
  cs <- gets containers ;;
  match cs !! i with
  | None => ret false
  | Some c =>
      match blocked_until c with
      | None => ret false
      | Some _ => now <- monotonic ;; ret (is_blocked now c)
      end
  end.

(** [container.mark_success()]. *)
Definition mark_success_m (i : nat) : M unit :=
  t <- monotonic ;; update_container i (mark_success t).

(** [container.mark_failure()]: one clock read for [last_used_at], a
    second one only when the failure limit is reached. *)
Definition mark_failure_m (i : nat) : M unit :=
  cs <- gets containers ;;
  t1 <- monotonic ;;
  match cs !! i with
  | None => ret tt
  | Some c =>
      if max_failures c <=? fail_uses c + 1
      then t2 <- monotonic ;; update_container i (mark_failure t1 t2)
      else update_container i (mark_failure t1 t1)
  end.

(** [container.restore()]. *)
Definition restore_m (i : nat) : M unit := update_container i restore.

(** The position of the first container flagged primary. *)
Fixpoint first_primary (cs : list TranslatorContainer) (i : nat) : option nat :=
  match cs with
  | [] => None
  | c :: cs' => if is_primary c then Some i else first_primary cs' (S i)
  end.

(** [_primary_container]. *)
Definition _primary_container : M (option nat) :=
  cs <- gets containers ;;
  match first_primary cs 0 with
  | Some i => ret (Some i)
  | None => ret (match cs with [] => None | _ => Some 0%nat end)
  end.

(** [[c for c in candidates if not c.is_blocked]]. *)
Fixpoint unblocked (candidates : list nat) : M (list nat) :=
  match candidates with
  | [] => ret []
  | i :: rest =>
      b <- is_blocked_m i ;;
      keep <- unblocked rest ;;
      ret (if b then keep else i :: keep)
  end.

(** The sort key [(c is last_used, c.last_used_at)] and the order of
    Python tuples on it. *)
Definition sort_key (cs : list TranslatorContainer) (last_used : option nat)
           (i : nat) : bool * Q :=
  (match last_used with Some j => Nat.eqb i j | None => false end,
   match cs !! i with Some c => last_used_at c | None => 0%Q end).

Definition key_lt (a b : bool * Q) : bool :=
  if Bool.eqb (fst a) (fst b)
  then Py.Qltb (snd a) (snd b)
  else negb (fst a) && fst b.

(** [sorted(available, key=...)]: a stable sort. *)
Fixpoint insert_by (key : nat -> bool * Q) (x : nat) (l : list nat) : list nat :=
  match l with
  | [] => [x]
  | y :: l' => if key_lt (key y) (key x) then y :: insert_by key x l' else x :: l
  end.

Definition sorted (key : nat -> bool * Q) (l : list nat) : list nat :=
  foldr (insert_by key) [] l.

(** [_get_container]. *)
Definition _get_container (prefer_primary : bool) (last_used : option nat)
  : M (option nat) :=
  cs <- gets containers ;;
  available <- unblocked (seq 0 (length cs)) ;;
  available <-
    (if negb (Py.truthy_list available) && prefer_primary
     then
       primary <- _primary_container ;;
       match primary with
       | Some p => restore_m p ;;; ret [p]
       | None => ret available
       end
     else ret available) ;;
  if negb (Py.truthy_list available) then ret None
  else
    cs <- gets containers ;;
    match sorted (sort_key cs last_used) available with
    | [] => ret None
    | chosen :: _ =>
        t <- monotonic ;;
        update_container chosen (set_last_used_at t) ;;;
        ret (Some chosen)
    end.

(** [max_attempts]. *)
Definition max_attempts (cs : list TranslatorContainer) : Z :=
  Z.max (Z.of_nat (length cs)) 1 * 2.

(** What follows the [while] loop. *)
Definition after_loop (last_error : option PyExc) : Outcome TranslationResult :=
  match last_error with
  | Some e => Raise (TranslationError (str e) (Some e))
  | None => Raise (TranslationError "No available translator containers" None)
  end.

(** The [while attempts < max_attempts] loop; [left] is
    [max_attempts - attempts]. *)
Fixpoint failover_loop (self : Translator) (request : TranslationRequest)
         (left : nat) (container : option nat) (last_error : option PyExc)
  : M (Outcome TranslationResult) :=
  match left with
  | O => ret (after_loop last_error)
  | S left' =>
      match container with
      | None => ret (after_loop last_error)
      | Some c =>
          out <- call_engine self request c ;;
          match out with
          | Return res =>
              mark_success_m c ;;; ret (Return res)
          | Raise (LimitedModeError sc msg) =>
              mark_failure_m c ;;; ret (Raise (LimitedModeError sc msg))
          | Raise (TranslationError msg cause) =>
              let exc := TranslationError msg cause in
              mark_failure_m c ;;;
              container' <- _get_container false (Some c) ;;
              (if 0 <? attempt_delay_ms (capabilities self)
               then sleep (inject_Z (attempt_delay_ms (capabilities self)) / 1000)
               else ret tt) ;;;
              failover_loop self request left' container' (Some exc)
          | Raise exc =>
              mark_failure_m c ;;;
              ret (Raise (TranslationError (str exc) (Some exc)))
          end
      end
  end.

(** [_translate_with_failover]. *)
Definition _translate_with_failover (self : Translator)
           (request : TranslationRequest) : M (Outcome TranslationResult) :=
  container <- _get_container true None ;;
  cs <- gets containers ;;
  failover_loop self request (Z.to_nat (max_attempts cs)) container None.

(** [translate_batch]: sequential, the first exception ends the batch. *)
Fixpoint translate_batch (self : Translator) (requests : list TranslationRequest)
  : M (Outcome (list TranslationResult)) :=
  match requests with
  | [] => ret (Return [])
  | req :: rest =>
      out <- _translate_with_failover self req ;;
      match out with
      | Raise e => ret (Raise e)
      | Return res =>
          outs <- translate_batch self rest ;;
          match outs with
          | Raise e => ret (Raise e)
          | Return results => ret (Return (res :: results))
          end
      end
  end.

(** [translate_text]: [translate_batch([request])[0]]. *)
Definition translate_text (self : Translator) (request : TranslationRequest)
  : M (Outcome TranslationResult) :=
  outs <- translate_batch self [request] ;;
  match outs with
  | Raise e => ret (Raise e)
  | Return (res :: _) => ret (Return res)
  | Return [] => ret (Raise (OtherException "list index out of range"))
  end.

End Translator.

(* ------------------------------------------------------------------ *)
(** ** RateLimiter and backoff (translator/rate_limiter.py) *)
(* ------------------------------------------------------------------ *)

Module RateLimiter.
Import Limits.

Definition set_last_call_ts (v : Q) (self : RateLimiter) : RateLimiter :=
  mkLimiter (cfg self) v (_window_start_ts self) (_window_calls self).

Definition set_window (start : Q) (calls : Z) (self : RateLimiter) : RateLimiter :=
  mkLimiter (cfg self) (_last_call_ts self) start calls.

(** The four assignments that end slow mode. *)
Definition clear_slow_mode (b : BackoffState) : BackoffState :=
  mkBackoff 0 (last_error_ts b) false 0 false.

(** The auto-clear test of [wait_or_raise]: in slow mode, with a
    recorded (non-zero) last error more than 300 seconds before [now]. *)
Definition expired (now : Q) (backoff : option BackoffState) : bool :=
  match backoff with
  | Some b =>
      slow_mode b && Py.truthy_float (last_error_ts b)
      && Py.Qltb 300 (now - last_error_ts b)
  | None => false
  end.

(** The per-minute window of [wait_or_raise]. *)
Definition window_step (now : Q) (self : RateLimiter) : M (Q * RateLimiter) :=
  if 0 <? max_calls_per_min (cfg self) then
    if Qle_bool (_window_start_ts self) 0
       || Qle_bool 60 (now - _window_start_ts self)
    then ret (now, set_window now 0 self)
    else if max_calls_per_min (cfg self) <=? _window_calls self then
      let wait_for := Py.max 0 (60 - (now - _window_start_ts self)) in
      now <- (if Py.Qltb 0 wait_for
              then sleep wait_for ;;; monotonic
              else ret now) ;;
      start <- monotonic ;;
      ret (now, set_window start 0 self)
    else ret (now, self)
  else ret (now, self).

(** [RateLimiter.wait_or_raise].  The limiter and the backoff object
    are passed in and handed back with the result. *)
Definition wait_or_raise (self : RateLimiter) (text_length : Z)
           (backoff : option BackoffState)
  : M (Outcome unit * RateLimiter * option BackoffState) :=
  if max_chars_per_request (cfg self) <? text_length
  then ret (Raise (ValueError "Text too long for limited mode"), self, backoff)
  else
    now <- monotonic ;;
    let slow := match backoff with Some b => slow_mode b | None => false end in
    let cleared := expired now backoff in
    let backoff := if cleared then option_map clear_slow_mode backoff else backoff in
    let slow := if cleared then false else slow in
    if negb slow
    then ret (Return tt, set_last_call_ts now self, backoff)
    else
      w <- window_step now self ;;
      let now := fst w in
      let self := snd w in
      let since_last := (now - _last_call_ts self)%Q in
      (if Py.Qltb since_last (min_interval_sec (cfg self))
       then sleep (min_interval_sec (cfg self) - since_last)
       else ret tt) ;;;
      (match backoff with
       | Some b =>
           if Py.Qltb 0 (penalty_delay_sec b)
           then sleep (penalty_delay_sec b) else ret tt
       | None => ret tt
       end) ;;;
      t <- monotonic ;;
      ret (Return tt,
           mkLimiter (cfg self) t (_window_start_ts self) (_window_calls self + 1),
           backoff).

(** [get_backoff_state]: the entry of [_BACKOFFS], created on first use. *)
Definition get_backoff_state (engine_id : string) : M BackoffState :=
  fun s =>
    let w := world s in
    match backoffs w !! engine_id with
    | Some b => ((b, s), [])
    | None =>
        ((fresh, set_world (set_backoffs (<[engine_id := fresh]> (backoffs w)) w) s), [])
    end.

Definition put_backoff_state (engine_id : string) (b : BackoffState) : M unit :=
  modify (fun s =>
    let w := world s in
    set_world (set_backoffs (<[engine_id := b]> (backoffs w)) w) s).

(** The assignments of [activate_slow_mode] on the state object. *)
Definition slow_down (now : Q) (state : BackoffState) : BackoffState :=
  let was_slow := slow_mode state in
  mkBackoff
    (Py.min (Py.max (penalty_delay_sec state) 2) 30)
    now
    true
    (if Py.truthy_float (slow_since state) then slow_since state else now)
    (if negb was_slow then false else notified state).

(** [activate_slow_mode]. *)
Definition activate_slow_mode (engine_id : string) (reason : option string)
  : M BackoffState :=
  state <- get_backoff_state engine_id ;;
  now <- monotonic ;;
  let state := slow_down now state in
  put_backoff_state engine_id state ;;;
  ret state.

(** [is_slow_mode]. *)
Definition is_slow_mode (engine_id : string) : M bool :=
  state <- get_backoff_state engine_id ;; ret (slow_mode state).

(** [consume_slow_mode_notice]. *)
Definition consume_slow_mode_notice (engine_id : string) : M bool :=
  state <- get_backoff_state engine_id ;;
  if slow_mode state && negb (notified state)
  then
    put_backoff_state engine_id
      (mkBackoff (penalty_delay_sec state) (last_error_ts state)
                 (slow_mode state) (slow_since state) true) ;;;
    ret true
  else ret false.




End RateLimiter.

(* ------------------------------------------------------------------ *)
(** ** Text blocks (project/page_session.py) *)
(* ------------------------------------------------------------------ *)

Module Page.

Record TextBlock : Type := mkBlock {
  id : string;
  bbox : Z * Z * Z * Z;
  original_text : string;
  translated_text : string;
  block_type : string;
  enabled : bool;
  orientation : string;
  confidence : Q;
  deleted : bool;
  manual : bool;
  font_size : option Z
}.

(** [block.translated_text = v]. *)
Definition set_translated_text (v : string) (b : TextBlock) : TextBlock :=
  mkBlock (id b) (bbox b) (original_text b) v (block_type b) (enabled b)
          (orientation b) (confidence b) (deleted b) (manual b) (font_size b).

End Page.

(* ------------------------------------------------------------------ *)
(** ** TranslationService (translator/service.py) *)
(* ------------------------------------------------------------------ *)

Module Service.
Import Base.

(** [normalize_translator_id]: the alias table of
    core/engines_registry.py. *)
Definition normalize_translator_id (engine_id : string) : string :=
  if String.eqb engine_id "yandex" then "yandex_translate"
  else if String.eqb engine_id "openai" then "openai_translate"
  else if String.eqb engine_id "marianmt" then "marian_m2m_nllb"
  else engine_id.

(** The service object.  [_get_translator] stands for the method of
    that name with the engine settings fixed: the cached or freshly
    created translator for an engine id, or the [ValueError] of the
    registry for an unregistered one. *)
Record TranslationService : Type := mkService {
  _rate_limit_callback : option (string -> State -> State);
  _get_translator : string -> Outcome Translator.Translator
}.

(** [_apply_glossary_and_name_fixes]. *)
Definition apply_term (result : string) (term : Knowledge.Term) : string :=
  if Py.truthy_str (Knowledge.source term) && Py.truthy_str (Knowledge.target term)
  then Py.replace result (Knowledge.source term) (Knowledge.target term)
  else result.

Definition apply_character (result : string) (character : Knowledge.Character)
  : string :=
  if negb (Py.truthy_str (Knowledge.char_display_name character)) then result
  else
    fold_left
      (fun result orig_name =>
         if Py.truthy_str orig_name
         then Py.replace result orig_name (Knowledge.char_display_name character)
         else result)
      (Knowledge.original_names character) result.

Definition _apply_glossary_and_name_fixes (translated : string)
           (knowledge : Knowledge.TitleKnowledge) : string :=
  fold_left apply_character (Knowledge.characters knowledge)
    (fold_left apply_term (Knowledge.terms knowledge) translated).

(** [_build_prompt_payload]. *)
Definition _build_prompt_payload (text : string) (project : Knowledge.TitleProject)
           (knowledge : Knowledge.TitleKnowledge)
           (context : list Context.ContextEntry) (src_lang dst_lang : string)
  : PromptPayload :=
  mkPayload text src_lang dst_lang
    (Knowledge.id (Knowledge.meta knowledge))
    (Knowledge.display_name (Knowledge.meta knowledge))
    (match Knowledge.style knowledge with
     | Some st => st
     | None => Knowledge.mkStyle None None None None None ∅
     end)
    (Knowledge.characters knowledge)
    (Knowledge.terms knowledge)
    context
    (Knowledge.content_type project)
    (Knowledge.color_mode project).

(** One step of the loop of [_split_into_batches]; the loop state is
    [(batches, current, current_chars)]. *)
Definition split_step (max_batch : Z) (max_chars : option Z)
           (st : list (list TranslationRequest) * list TranslationRequest * Z)
           (req : TranslationRequest)
  : list (list TranslationRequest) * list TranslationRequest * Z :=
  let '(batches, current, current_chars) := st in
  let req_len := Py.len (text req) in
  let fits_count := Z.of_nat (length current) <? max_batch in
  let fits_chars :=
    match max_chars with
    | None => true
    | Some m => current_chars + req_len <=? m
    end in
  let '(batches, current, current_chars) :=
    if Py.truthy_list current && (negb fits_count || negb fits_chars)
    then (batches ++ [current], [], 0)
    else (batches, current, current_chars) in
  (batches, current ++ [req], current_chars + req_len).

(** [_split_into_batches]. *)
Definition _split_into_batches (requests : list TranslationRequest)
           (capabilities : TranslatorCapabilities)
  : list (list TranslationRequest) :=
  if negb (supports_batch capabilities)
  then map (fun req => [req]) requests
  else
    let max_batch :=
      Z.max 1 (if max_batch_size capabilities =? 0 then 1
               else max_batch_size capabilities) in
    let max_chars := max_chars_per_request capabilities in
    let '(batches, current, _) :=
      fold_left (split_step max_batch max_chars) requests ([], [], 0) in
    if Py.truthy_list current then batches ++ [current] else batches.

(** [_run_with_rate_limit_retry]. *)
Definition _run_with_rate_limit_retry {T} (self : TranslationService)
           (engine_id : string) (fn : M (Outcome T)) : M (Outcome T) :=
  out <- fn ;;
  match out with
  | Raise (LimitedModeError sc msg) =>
      RateLimiter.activate_slow_mode engine_id (Some msg) ;;;
      (match _rate_limit_callback self with
       | Some callback => emit (EvCallback engine_id) ;;; modify (callback engine_id)
       | None => ret tt
       end) ;;;
      state <- RateLimiter.get_backoff_state engine_id ;;
      let wait_for := Py.max (Limits.penalty_delay_sec state) 1.5 in
      sleep wait_for ;;;
      out2 <- fn ;;
      match out2 with
      | Raise (LimitedModeError sc2 msg2) =>
          let exc2 := LimitedModeError sc2 msg2 in
          ret (Raise (TranslationError (str exc2) (Some exc2)))
      | _ => ret out2
      end
  | _ => ret out
  end.

(** The first loop of [translate_blocks]: blank blocks get an empty
    translation and are passed over, the others get a request.  A
    block is referred to by its position [i] in the sequence. *)
Fixpoint collect_requests (project : Knowledge.TitleProject)
         (knowledge : Knowledge.TitleKnowledge) (src dst : string)
         (context_limit : Z) (i : nat) (blocks : list Page.TextBlock)
  : M (list Page.TextBlock * list (nat * TranslationRequest)) :=
  match blocks with
  | [] => ret ([], [])
  | block :: rest =>
      let text := Page.original_text block in
      if negb (Py.truthy_str (Py.strip text)) then
        r <- collect_requests project knowledge src dst context_limit (S i) rest ;;
        ret (Page.set_translated_text "" block :: fst r, snd r)
      else
        context <- gets (fun s => Context.get_recent_context context_limit (ctx_manager s)) ;;
        let prompt_data := _build_prompt_payload text project knowledge context src dst in
        let req :=
          mkRequest text src dst (Some prompt_data) (Some context)
                    [("block_id", Page.id block); ("block_type", Page.block_type block)]
        in
        r <- collect_requests project knowledge src dst context_limit (S i) rest ;;
        ret (block :: fst r, (i, req) :: snd r)
  end.

(** The loop over the batches. *)
Fixpoint run_batches (self : TranslationService) (translator : Translator.Translator)
         (normalized_id : string) (batches : list (list TranslationRequest))
  : M (Outcome (list TranslationResult)) :=
  match batches with
  | [] => ret (Return [])
  | batch :: rest =>
      out <- _run_with_rate_limit_retry self normalized_id
               (Translator.translate_batch translator batch) ;;
      match out with
      | Raise e => ret (Raise e)
      | Return batch_results =>
          outs <- run_batches self translator normalized_id rest ;;
          match outs with
          | Raise e => ret (Raise e)
          | Return all_results => ret (Return (batch_results ++ all_results))
          end
      end
  end.

(** The last loop of [translate_blocks], over
    [zip(request_pairs, all_results)]. *)
Fixpoint apply_results (knowledge : Knowledge.TitleKnowledge)
         (pairs : list ((nat * TranslationRequest) * TranslationResult))
         (blocks : list Page.TextBlock) : M (list Page.TextBlock) :=
  match pairs with
  | [] => ret blocks
  | ((i, req), res) :: rest =>
      let fixed := _apply_glossary_and_name_fixes (translated_text res) knowledge in
      (if Py.truthy_str fixed
       then modify (fun s =>
              set_ctx_manager (Context.add_segment (text req) fixed (ctx_manager s)) s)
       else ret tt) ;;;
      apply_results knowledge rest (alter (Page.set_translated_text fixed) i blocks)
  end.

Definition or_else (s : option string) (d : string) : string :=
  match s with
  | Some v => if Py.truthy_str v then v else d
  | None => d
  end.

(** [translate_blocks].  The blocks are mutated in place: the second
    component of the result is the sequence of blocks as the call
    leaves it, whether it returns or raises.  [knowledge] is what
    [_ensure_knowledge_loaded] yields for the project (it never raises). *)
Definition translate_blocks (self : TranslationService)
           (blocks : list Page.TextBlock) (project : Knowledge.TitleProject)
           (knowledge : Knowledge.TitleKnowledge) (engine_id : string)
           (src_lang dst_lang : option string) (reset_context : bool)
  : M (Outcome (list Page.TextBlock) * list Page.TextBlock) :=
  (if reset_context
   then modify (fun s => set_ctx_manager (Context.clear (ctx_manager s)) s)
   else ret tt) ;;;
  let normalized_id := normalize_translator_id engine_id in
  match _get_translator self normalized_id with
  | Raise e => ret (Raise e, blocks)
  | Return translator =>
      let caps := Translator.capabilities translator in
      let src := Py.lower (or_else src_lang (Knowledge.project_original_language project)) in
      let dst := Py.lower (or_else dst_lang (Knowledge.project_target_language project)) in
      let context_limit := if context_window caps =? 0 then 10 else context_window caps in
      r <- collect_requests project knowledge src dst context_limit 0 blocks ;;
      let blocks := fst r in
      let request_pairs := snd r in
      let requests := map snd request_pairs in
      if negb (Py.truthy_list requests) then ret (Return blocks, blocks)
      else
        let batches := _split_into_batches requests caps in
        outs <- run_batches self translator normalized_id batches ;;
        match outs with
        | Raise e => ret (Raise e, blocks)
        | Return all_results =>
            if negb (length all_results =? length request_pairs)%nat
            then ret (Raise (TranslationError
                               "Translator returned unexpected number of results" None),
                      blocks)
            else
              blocks <- apply_results knowledge (zip request_pairs all_results) blocks ;;
              ret (Return blocks, blocks)
        end
  end.

(** [TranslationService.translate_text].  [knowledge] is what
    [_ensure_knowledge_loaded] yields for the project. *)
Definition translate_text (self : TranslationService) (text : string)
           (project : Knowledge.TitleProject) (knowledge : Knowledge.TitleKnowledge)
           (engine_id : string) (src_lang dst_lang : option string)
           (reset_context : bool) : M (Outcome string) :=
  if negb (Py.truthy_str text) || String.eqb (Py.strip text) ""
  then ret (Return text)
  else
    (if reset_context
     then modify (fun s => set_ctx_manager (Context.clear (ctx_manager s)) s)
     else ret tt) ;;;
    let normalized_id := normalize_translator_id engine_id in
    match _get_translator self normalized_id with
    | Raise e => ret (Raise e)
    | Return translator =>
        let caps := Translator.capabilities translator in
        let src := Py.lower (or_else src_lang (Knowledge.project_original_language project)) in
        let dst := Py.lower (or_else dst_lang (Knowledge.project_target_language project)) in
        let context_limit := if context_window caps =? 0 then 10 else context_window caps in
        context <- gets (fun s => Context.get_recent_context context_limit (ctx_manager s)) ;;
        let prompt_data := _build_prompt_payload text project knowledge context src dst in
        let request := mkRequest text src dst (Some prompt_data) (Some context) [] in
        out <- _run_with_rate_limit_retry self normalized_id
                 (Translator.translate_text translator request) ;;
        match out with
        | Raise e => ret (Raise e)
        | Return res =>
            let translated := _apply_glossary_and_name_fixes (translated_text res) knowledge in
            (if Py.truthy_str translated
             then modify (fun s =>
                    set_ctx_manager (Context.add_segment text translated (ctx_manager s)) s)
             else ret tt) ;;;
            ret (Return translated)
        end
    end.

End Service.

(* ------------------------------------------------------------------ *)
(** ** Capabilities of the registered engines (translator/registry.py) *)
(* ------------------------------------------------------------------ *)

Module Registry.
Import Base.

(** [_default_caps]: [TranslatorCapabilities()]. *)
Definition _default_caps : TranslatorCapabilities := mkCaps false 1 None None 10 600.

(** The table [_CAPABILITIES]. *)
Definition _CAPABILITIES : list (string * TranslatorCapabilities) :=
  [ ("deepl", mkCaps true 50 (Some 4500) None 10 700);
    ("google_translate", mkCaps true 20 (Some 4000) None 8 500);
    ("yandex_translate", mkCaps true 10 (Some 4500) None 8 800);
    ("azure_translate", mkCaps true 25 (Some 9000) None 12 700);
    ("openai_translate", mkCaps false 1 (Some 2500) None 16 800);
    ("argos", mkCaps false 1 (Some 1200) None 6 500);
    ("marian_m2m_nllb", mkCaps true 8 (Some 2200) None 8 600) ]%string.

(** [d.get(key)] on a dictionary written as its list of items. *)
Fixpoint dict_get {A} (d : list (string * A)) (key : string) : option A :=
  match d with
  | [] => None
  | (k, v) :: d' => if String.eqb key k then Some v else dict_get d' key
  end.

(** [get_translator_capabilities]. *)
Definition get_translator_capabilities (engine_id : string) : TranslatorCapabilities :=
  let normalized := Service.normalize_translator_id engine_id in
  match dict_get _CAPABILITIES normalized with
  | Some caps => caps
  | None => _default_caps
  end.

End Registry.

(* ================================================================== *)
(** * Vocabulary of the properties *)
(* ================================================================== *)

(** A container at or over its failure limit whose block lasts at least
    until [limit]. *)
Definition blocked_through (limit : Q) (c : Container.TranslatorContainer) : Prop :=
  Container.max_failures c <= Container.fail_uses c /\
  exists b, Container.blocked_until c = Some b /\ (limit <= b)%Q.

(** [sum(len(req.text) for req in batch)]. *)
Definition batch_chars (batch : list Base.TranslationRequest) : Z :=
  foldr (fun req acc => Py.len (Base.text req) + acc) 0 batch.

(** What the splitter guarantees for one batch under the limits
    [max_batch] and [max_chars]: it is not empty, respects the count
    limit, and respects the character limit unless it consists of a
    single request. *)
Definition batch_within (max_batch : Z) (max_chars : option Z)
           (batch : list Base.TranslationRequest) : Prop :=
  batch <> [] /\
  Z.of_nat (length batch) <= max_batch /\
  forall m, max_chars = Some m -> batch_chars batch <= m \/ length batch = 1%nat.

(** The value the next read of the clock returns. *)
Definition next_reading (s : State) : Q := clock (world s) (ticks (world s)).

(** The loop invariant: the closed batches followed by the open one
    are the requests read so far, the counter is the size of the open
    batch, and every batch, closed or open, is within the limits. *)
Definition split_inv (max_batch : Z) (max_chars : option Z)
           (st : list (list Base.TranslationRequest) * list Base.TranslationRequest * Z)
           (seen : list Base.TranslationRequest) : Prop :=
  let '(batches, current, current_chars) := st in
  concat batches ++ current = seen /\
  current_chars = batch_chars current /\
  Forall (batch_within max_batch max_chars) batches /\
  (current = [] \/ batch_within max_batch max_chars current).

(** The state in which the wrapper sleeps: after the first call raised
    a [LimitedModeError], slow mode was activated and the callback, if
    any, has run. *)
Definition before_sleep (self : Service.TranslationService) (engine_id : string)
           (msg : string) (s1 : State) : State :=
  let slowed := final (RateLimiter.activate_slow_mode engine_id (Some msg) s1) in
  match Service._rate_limit_callback self with
  | Some callback => callback engine_id slowed
  | None => slowed
  end.

(** The calls of the concrete engine among the events of a run. *)
Definition is_call (ev : Event) : bool :=
  match ev with EvCall _ _ _ => true | _ => false end.

Definition count_calls (evs : list Event) : nat := length (List.filter is_call evs).

(** The exception of the last engine call that raised, if any. *)
Definition last_call_error (evs : list Event) (before : option PyExc) : option PyExc :=
  fold_left (fun acc ev =>
               match ev with
               | EvCall _ _ (Raise e) => Some e
               | _ => acc
               end) evs before.

(** Every engine call among the events ended in a [TranslationError]:
    the runs of the failover loop that neither return a result nor let
    another exception through. *)
Definition call_failed (ev : Event) : Prop :=
  match ev with
  | EvCall _ _ (Raise (TranslationError _ _)) => True
  | EvCall _ _ _ => False
  | _ => True
  end.

(** The state after [n] more reads of the clock. *)
Definition advance (n : nat) (s : State) : State :=
  set_world (mkWorld (clock (world s)) (n + ticks (world s)) (extern (world s))
                     (backoffs (world s))) s.


(** The container [_primary_container] designates: the first one
    flagged primary, else the first one. *)
Definition primary_index (cs : list Container.TranslatorContainer) : option nat :=
  match Translator.first_primary cs 0 with
  | Some i => Some i
  | None => match cs with [] => None | _ => Some 0%nat end
  end.

(** Procedures that leave no event and keep the number of containers:
    clock reads and container updates. *)
Definition quiet {A} (m : M A) : Prop :=
  forall s, events (m s) = [] /\
            length (containers (final (m s))) = length (containers s).

(** The engine calls among the events are for requests of [reqs]. *)
Definition calls_within (reqs : list Base.TranslationRequest) (evs : list Event) : Prop :=
  forall r c out, In (EvCall r c out) evs -> In r reqs.

(** The test [not text.strip()]. *)
Definition blank (text : string) : bool := negb (Py.truthy_str (Py.strip text)).

(** Concrete inputs used to exercise the definitions. *)
Module Examples.
Import Base.

Definition request (text : string) : TranslationRequest :=
  mkRequest text "ja" "en" None None [].

Definition caps (batch : bool) (size : Z) (chars : option Z) : TranslatorCapabilities :=
  mkCaps batch size chars None 10 600.

Definition entry (n : string) : Context.ContextEntry := Context.mkEntry n n.

Definition container (primary : bool) (limit : Z) : Container.TranslatorContainer :=
  Container.mkContainer "c" primary 60 limit 0 None 0 ∅.

(** A container blocked until the clock shows 100. *)
Definition blocked_container : Container.TranslatorContainer :=
  Container.mkContainer "c" true 60 3 3 (Some 100%Q) 0 ∅.

(** An engine that raises the same exception at every call, and one
    that returns the text it is given. *)
Definition engine_raising (e : PyExc) : Translator.Translator :=
  Translator.mkTranslator "deepl" (caps true 50 (Some 4500)) (fun _ _ w => (Raise e, w)).

Definition engine_echo : Translator.Translator :=
  Translator.mkTranslator "deepl" (caps true 50 (Some 4500))
    (fun req _ w => (Return (mkResult (text req) None (metadata req)), w)).

(** A clock that advances one second per read. *)
Definition ticking (n : nat) : Q := inject_Z (Z.of_nat n).

Definition state (cs : list Container.TranslatorContainer) : State :=
  mkState (mkWorld ticking 0 0 ∅) cs (Context.mkManager 50 []).

Definition boom : PyExc := TranslationError "boom" None.
Definition throttled : PyExc := LimitedModeError (Some 429) "rate limit".

Definition block (id text translated : string) : Page.TextBlock :=
  Page.mkBlock id (0, 0, 10, 10) text translated "dialog" true "horizontal" 0
               false false None.

Definition project : Knowledge.TitleProject :=
  Knowledge.mkProject "title" "Title" "ja" "en" "standard" "bw".

Definition knowledge : Knowledge.TitleKnowledge :=
  Knowledge.mkKnowledge (Knowledge.mkMeta "title" "Title" "ja" "en") [] [] None.

(** A service without callback whose registry knows one engine. *)
Definition service : Service.TranslationService :=
  Service.mkService None
    (fun id => if String.eqb id "deepl" then Return engine_echo
               else Raise (ValueError "Translator is not registered")).

(** The request [translate_blocks] builds for the block "b1" with the
    text "hello", from an empty context. *)
Definition hello_request : TranslationRequest :=
  mkRequest "hello" "ja" "en"
            (Some (Service._build_prompt_payload "hello" project knowledge [] "ja" "en"))
            (Some [])
            [("block_id", "b1"); ("block_type", "dialog")]%string.

(** A knowledge base with two terms and one character. *)
Definition glossary : Knowledge.TitleKnowledge :=
  Knowledge.mkKnowledge (Knowledge.mkMeta "title" "Title" "ja" "en")
    [Knowledge.mkCharacter "c1" ["Luffy"; ""]%string "Ruffy" None None None None]
    [Knowledge.mkTerm "niku" "meat" None None []; Knowledge.mkTerm "" "x" None None []]
    None.

End Examples.

(* ================================================================== *)
(** * Vocabulary of the further properties *)
(* ================================================================== *)

(** The last [n] elements of a list. *)
Definition recent {A} (n : nat) (l : list A) : list A := drop (length l - n) l.

(** Adding segments one after the other, and the entries they make. *)
Definition add_all (segments : list (string * string)) (self : Context.ContextManager)
  : Context.ContextManager :=
  fold_left (fun m seg => Context.add_segment (fst seg) (snd seg) m) segments self.

Definition entries_of (segments : list (string * string)) : list Context.ContextEntry :=
  map (fun seg => Context.mkEntry (fst seg) (snd seg)) segments.

(** Consecutive failures, each with its two readings of the clock. *)
Definition fail_all (times : list (Q * Q)) (c : Container.TranslatorContainer)
  : Container.TranslatorContainer :=
  fold_left (fun c t => Container.mark_failure (fst t) (snd t) c) times c.

(** A batch is full for the request that follows it. *)
Definition full_for (max_batch : Z) (max_chars : option Z)
           (batch : list Base.TranslationRequest) (next : option Base.TranslationRequest) : Prop :=
  match next with
  | None => True
  | Some req =>
      max_batch <= Z.of_nat (length batch) \/
      exists m, max_chars = Some m /\ m < batch_chars batch + Py.len (Base.text req)
  end.

(** Every batch but the last is full for the first request of the next. *)
Fixpoint packed (max_batch : Z) (max_chars : option Z)
         (batches : list (list Base.TranslationRequest)) : Prop :=
  match batches with
  | [] => True
  | b1 :: rest =>
      match rest with
      | [] => True
      | b2 :: _ => full_for max_batch max_chars b1 (head b2)
      end /\ packed max_batch max_chars rest
  end.

(** The loop invariant of the splitter for [packed]. *)
Definition packed_inv (mb : Z) (mc : option Z)
           (st : list (list Base.TranslationRequest) * list Base.TranslationRequest * Z) : Prop :=
  let '(batches, current, chars) := st in
  (batches = [] /\ current = [] /\ chars = 0) \/
  (current <> [] /\ chars = batch_chars current /\ packed mb mc (batches ++ [current])).

(** The backoff state of an engine: its entry in the table, or a fresh
    one when it has none yet. *)
Definition backoff_of (engine_id : string) (s : State) : Limits.BackoffState :=
  default Limits.fresh (backoffs (world s) !! engine_id).

(** A sleep of positive length. *)
Definition positive_sleep (ev : Event) : Prop :=
  exists d, ev = EvSleep d /\ (0 < d)%Q.

(** A procedure that leaves one aspect [f] of the state as it was. *)
Definition preserves {A B} (f : State -> B) (m : M A) : Prop :=
  forall s, f (final (m s)) = f s.

(** An exception that is neither a [LimitedModeError] nor a
    [TranslationError]. *)
Definition unexpected (e : PyExc) : Prop :=
  match e with
  | ValueError _ | OtherException _ => True
  | _ => False
  end.

(** The relation between the blocks handed to [translate_blocks] and
    the blocks it leaves: the same blocks, position by position, up to
    their [translated_text]. *)
Definition retranslated (before after : list Page.TextBlock) : Prop :=
  length after = length before /\
  forall i b, before !! i = Some b ->
              exists t, after !! i = Some (Page.set_translated_text t b).

(** The error of [translate_blocks] for a wrong number of results. *)
Definition count_mismatch : PyExc :=
  TranslationError "Translator returned unexpected number of results" None.

(** A glossary source that cannot fire on [text]: it is skipped for
    being empty, or it does not occur. *)
Definition absent (source text : string) : Prop :=
  source = ""%string \/ Py.contains source text = false.


(* ================================================================== *)
(** * Properties *)
(* ================================================================== *)

(** ** Comparisons and arithmetic on timestamps *)

Lemma Qltb_lt (x y : Q) : Py.Qltb x y = true <-> (x < y)%Q.
Proof.
  unfold Py.Qltb. rewrite negb_true_iff. split; intro H.
  - apply Qnot_le_lt. intro Hle. apply Qle_bool_iff in Hle. congruence.
  - destruct (Qle_bool y x) eqn:E; [|reflexivity].
    apply Qle_bool_iff in E. lra.
Qed.

Lemma Qltb_ge (x y : Q) : Py.Qltb x y = false <-> (y <= x)%Q.
Proof.
  unfold Py.Qltb. rewrite negb_false_iff. apply Qle_bool_iff.
Qed.

Lemma py_max_ge_l (a b : Q) : (a <= Py.max a b)%Q.
Proof.
  unfold Py.max. destruct (Py.Qltb a b) eqn:E.
  - apply Qltb_lt in E. lra.
  - lra.
Qed.

Lemma py_max_ge_r (a b : Q) : (b <= Py.max a b)%Q.
Proof.
  unfold Py.max. destruct (Py.Qltb a b) eqn:E.
  - lra.
  - apply Qltb_ge in E. lra.
Qed.

Lemma py_min_le_r (a b : Q) : (Py.min a b <= b)%Q.
Proof.
  unfold Py.min. destruct (Py.Qltb b a) eqn:E.
  - lra.
  - apply Qltb_ge in E. lra.
Qed.

Lemma py_min_ge (a b c : Q) : (c <= a)%Q -> (c <= b)%Q -> (c <= Py.min a b)%Q.
Proof.
  intros Ha Hb. unfold Py.min. destruct (Py.Qltb b a); assumption.
Qed.

(** ** TranslatorContainer *)

Section ContainerFacts.
Import Container.

Lemma mark_failure_over_limit (t1 t2 : Q) (c : TranslatorContainer) :
  max_failures c <= fail_uses c + 1 ->
  mark_failure t1 t2 c =
  mkContainer (name c) (is_primary c) (block_timeout_sec c) (max_failures c)
              (fail_uses c + 1) (Some (t2 + block_timeout_sec c)%Q) t1 (extra c).
Proof.
  intros H. unfold mark_failure. cbn.
  destruct (Z.leb_spec (max_failures c) (fail_uses c + 1)); [reflexivity | lia].
Qed.

Lemma touch_static (c : TranslatorContainer) (op : Touch) :
  block_timeout_sec (touch c op) = block_timeout_sec c /\
  max_failures (touch c op) = max_failures c /\
  fail_uses c <= fail_uses (touch c op).
Proof.
  destruct op as [t1 t2 | t]; cbn.
  - unfold mark_failure. cbn.
    destruct (max_failures c <=? fail_uses c + 1); cbn; repeat split; lia.
  - repeat split; lia.
Qed.

Lemma touch_blocked_through (t0 : Q) (c : TranslatorContainer) (op : Touch) :
  not_before t0 op ->
  blocked_through (t0 + block_timeout_sec c) c ->
  blocked_through (t0 + block_timeout_sec c) (touch c op).
Proof.
  intros Hop [Hover (b & Hb & Hle)].
  destruct op as [t1 t2 | t]; cbn in *.
  - rewrite mark_failure_over_limit by lia. split; cbn; [lia|].
    eexists; split; [reflexivity | lra].
  - split; cbn; [assumption|]. exists b; auto.
Qed.

Lemma touches_blocked_through (t0 : Q) (ops : list Touch) :
  forall c,
    Forall (not_before t0) ops ->
    blocked_through (t0 + block_timeout_sec c) c ->
    blocked_through (t0 + block_timeout_sec c) (fold_left touch ops c).
Proof.
  induction ops as [| op ops IH]; intros c Hops Hc; cbn; [assumption|].
  inversion Hops as [| ? ? Hop Hrest]; subst.
  pose proof (touch_static c op) as (Hto & _ & _).
  rewrite <- Hto. apply IH; [assumption|].
  rewrite Hto. apply touch_blocked_through; assumption.
Qed.

Lemma blocked_through_is_blocked (limit now : Q) (c : TranslatorContainer) :
  blocked_through limit c -> (now < limit)%Q -> is_blocked now c = true.
Proof.
  intros [_ (b & Hb & Hle)] Hnow. unfold is_blocked. rewrite Hb.
  apply Qltb_lt. lra.
Qed.

(** C5.  Once [mark_failure] brings [fail_uses] to [max_failures] or
    beyond, [is_blocked] is true exactly while less than
    [block_timeout_sec] has passed since the block was set; further
    failures and selections within that window keep it true; [restore]
    and [mark_success] end it; and [mark_success] on any container
    sets [fail_uses] to 0, clears [blocked_until] and leaves the
    container unblocked. *)
Theorem container_blocked_until_timeout_or_reset
        (c : TranslatorContainer) (t1 t2 now t : Q) (ops : list Touch)
        (c' : TranslatorContainer) :
  max_failures c <= fail_uses c + 1 ->
  Forall (not_before t2) ops ->
  let blocked := mark_failure t1 t2 c in
  (is_blocked now blocked = true <-> (now < t2 + block_timeout_sec c)%Q) /\
  ((now < t2 + block_timeout_sec c)%Q ->
   is_blocked now (fold_left touch ops blocked) = true) /\
  is_blocked now (restore (fold_left touch ops blocked)) = false /\
  is_blocked now (mark_success t (fold_left touch ops blocked)) = false /\
  fail_uses (mark_success t c') = 0 /\
  blocked_until (mark_success t c') = None /\
  is_blocked now (mark_success t c') = false.
Proof.
  intros Hlimit Hops blocked. subst blocked.
  rewrite (mark_failure_over_limit t1 t2 c Hlimit).
  split; [| split; [| repeat split]].
  - unfold is_blocked; cbn. apply Qltb_lt.
  - intros Hnow.
    set (b := mkContainer _ _ _ _ _ _ _ _).
    apply (blocked_through_is_blocked (t2 + block_timeout_sec b)); [| exact Hnow].
    apply touches_blocked_through; [assumption|].
    split; cbn; [lia|]. eexists; split; [reflexivity | lra].
Qed.

Lemma container_blocked_until_timeout_or_reset_witness :
  let blocked := mark_failure 1 2 (Examples.container true 1) in
  let later := fold_left touch [Selected 3; Failure 4 5] blocked in
  is_blocked 30 blocked = true /\
  is_blocked 30 later = true /\
  is_blocked 30 (restore later) = false /\
  is_blocked 30 (mark_success 40 later) = false /\
  fail_uses (mark_success 40 blocked) = 0.
Proof.
  destruct (container_blocked_until_timeout_or_reset
              (Examples.container true 1) 1 2 30 40 [Selected 3; Failure 4 5]
              (mark_failure 1 2 (Examples.container true 1)))
    as (H1 & H2 & H3 & H4 & H5 & _).
  - cbn. lia.
  - repeat constructor; unfold not_before, Qle; cbn; lia.
  - split; [apply H1; reflexivity|]. split; [apply H2; reflexivity|].
    split; [exact H3|]. split; [exact H4 | exact H5].
Defined.

(** C10.  When the block window of a container at its failure limit
    has run out, [is_blocked] is false again and [fail_uses] still has
    its value; the next [mark_failure] blocks it again for a whole
    [block_timeout_sec] counted from that failure.  No failure or
    selection lowers [fail_uses], reading [is_blocked] changes no
    container, and [mark_success] and [restore] set it to 0. *)
Theorem container_expiry_keeps_failures
        (c : TranslatorContainer) (t1 t2 now t3 t4 later t : Q)
        (op : Touch) (s : State) (i : nat) :
  max_failures c <= fail_uses c + 1 ->
  (t2 + block_timeout_sec c <= now)%Q ->
  let blocked := mark_failure t1 t2 c in
  let again := mark_failure t3 t4 blocked in
  is_blocked now blocked = false /\
  fail_uses blocked = fail_uses c + 1 /\
  max_failures blocked <= fail_uses blocked /\
  fail_uses again = fail_uses blocked + 1 /\
  blocked_until again = Some (t4 + block_timeout_sec c)%Q /\
  (is_blocked later again = true <-> (later < t4 + block_timeout_sec c)%Q) /\
  fail_uses blocked <= fail_uses (touch blocked op) /\
  containers (final (Translator.is_blocked_m i s)) = containers s /\
  fail_uses (mark_success t blocked) = 0 /\
  fail_uses (restore blocked) = 0.
Proof.
  intros Hlimit Hnow blocked again. subst again blocked.
  rewrite (mark_failure_over_limit t1 t2 c Hlimit).
  set (b := mkContainer _ _ _ _ _ _ _ _).
  assert (Hb : max_failures b <= fail_uses b + 1) by (cbn; lia).
  rewrite (mark_failure_over_limit t3 t4 b Hb).
  repeat split.
  - unfold is_blocked; cbn. apply Qltb_ge. exact Hnow.
  - cbn; lia.
  - unfold is_blocked; cbn. apply Qltb_lt.
  - unfold is_blocked; cbn. apply Qltb_lt.
  - apply touch_static.
  - unfold Translator.is_blocked_m, bind, gets, final; cbn.
    destruct (containers s !! i) as [ci|]; cbn; [| reflexivity].
    destruct (blocked_until ci); reflexivity.
Qed.

Lemma container_expiry_keeps_failures_witness :
  let blocked := mark_failure 1 2 (Examples.container true 1) in
  let again := mark_failure 70 71 blocked in
  is_blocked 62 blocked = false /\
  fail_uses blocked = 1 /\
  fail_uses again = 2 /\
  blocked_until again = Some (71 + 60)%Q /\
  fail_uses (restore blocked) = 0.
Proof.
  destruct (container_expiry_keeps_failures
              (Examples.container true 1) 1 2 62 70 71 100 80 (Selected 63)
              (Examples.state [Examples.container true 1]) 0)
    as (H1 & H2 & _ & H4 & H5 & _ & _ & _ & _ & H10).
  - cbn. lia.
  - unfold Qle; cbn; lia.
  - split; [exact H1|]. split; [exact H2|]. split; [exact H4|].
    split; [exact H5 | exact H10].
Defined.

End ContainerFacts.

(** ** ContextManager *)

Section ContextFacts.
Import Context.

Lemma slice_from_neg_length {A} (limit : Z) (l : list A) :
  0 < limit -> Z.of_nat (length (Py.slice_from (- limit) l)) <= limit.
Proof.
  intros H. unfold Py.slice_from.
  destruct (Z.ltb_spec (- limit) 0); [| lia].
  rewrite length_drop. lia.
Qed.

Lemma slice_from_suffix {A} (start : Z) (l : list A) :
  exists older, l = older ++ Py.slice_from start l.
Proof.
  unfold Py.slice_from.
  exists (take (Z.to_nat (if start <? 0
                          then Z.max (start + Z.of_nat (length l)) 0
                          else Z.min start (Z.of_nat (length l)))) l).
  symmetry. apply take_drop.
Qed.

(** X4.  For a positive limit [get_recent_context] returns at most
    [limit] entries, and they are the tail of the history, oldest
    first. *)
Lemma get_recent_context_positive (limit : Z) (self : ContextManager) :
  0 < limit ->
  Z.of_nat (length (get_recent_context limit self)) <= limit /\
  exists older, _history self = older ++ get_recent_context limit self.
Proof.
  intros H. split.
  - apply slice_from_neg_length; assumption.
  - apply slice_from_suffix.
Qed.

Lemma get_recent_context_positive_witness :
  let self := mkManager 50 [Examples.entry "a"; Examples.entry "b"; Examples.entry "c"] in
  Z.of_nat (length (get_recent_context 2 self)) <= 2 /\
  exists older, _history self = older ++ get_recent_context 2 self.
Proof.
  exact (get_recent_context_positive
           2 (mkManager 50 [Examples.entry "a"; Examples.entry "b"; Examples.entry "c"])
           ltac:(lia)).
Defined.

Lemma deref_from {A} (l : list A) :
  forall pre, omap (fun r => (pre ++ l) !! r) (seq (length pre) (length l)) = l.
Proof.
  induction l as [| x l IH]; intros pre; [reflexivity|].
  cbn [length seq]. cbn.
  rewrite list_lookup_middle by reflexivity. cbn. f_equal.
  specialize (IH (pre ++ [x])).
  rewrite length_app, Nat.add_comm, <- app_assoc in IH. exact IH.
Qed.

Lemma deref_all {A} (l : list A) :
  omap (fun r => l !! r) (seq 0 (length l)) = l.
Proof. exact (deref_from l []). Qed.

(** The references of a new snapshot denote the stored history, and
    whatever is done to the snapshot as a list, the manager still sees
    the history it had. *)
Lemma snapshot_mutations_keep_history (limit : Z) (self : ContextManager)
      (ms : list ListMutation) :
  stored_history (fold_left mutate_snapshot ms (take_snapshot limit self))
  = _history self.
Proof.
  assert (H : forall h, stored_history (fold_left mutate_snapshot ms h) = stored_history h).
  { induction ms as [| m ms IH]; intros h; cbn [fold_left]; [reflexivity|].
    rewrite IH. reflexivity. }
  rewrite H. unfold stored_history, deref, take_snapshot. cbn.
  apply deref_all.
Qed.

(** The copy is shallow: the entries of the snapshot are the objects
    of the history, so assigning a field of one of them shows in the
    history. *)
Example snapshot_entry_shared :
  let self := mkManager 50 [Examples.entry "a"; Examples.entry "b"] in
  stored_history (mutate_entry (take_snapshot 1 self) 0 (Examples.entry "x"))
  = [Examples.entry "a"; Examples.entry "x"].
Proof. reflexivity. Qed.

(** C9 (at the limit 0).  [get_recent_context(0)] evaluates
    [self._history[-0:]], the whole history: it returns every stored
    entry instead of none. *)
Theorem get_recent_context_zero_returns_all (self : ContextManager) :
  get_recent_context 0 self = _history self.
Proof.
  unfold get_recent_context, Py.slice_from. cbn.
  rewrite Z.min_l by lia. reflexivity.
Qed.

Example get_recent_context_zero_two_entries :
  get_recent_context 0 (mkManager 50 [Examples.entry "a"; Examples.entry "b"])
  = [Examples.entry "a"; Examples.entry "b"].
Proof. reflexivity. Qed.

End ContextFacts.

(** ** The batch splitter *)

Section BatchFacts.
Import Base Service.

Lemma batch_chars_app (l1 l2 : list TranslationRequest) :
  batch_chars (l1 ++ l2) = batch_chars l1 + batch_chars l2.
Proof.
  induction l1 as [| r l1 IH]; [reflexivity|].
  change (Py.len (text r) + batch_chars (l1 ++ l2)
          = Py.len (text r) + batch_chars l1 + batch_chars l2).
  rewrite IH. lia.
Qed.

Lemma batch_chars_single (req : TranslationRequest) :
  batch_chars [req] = Py.len (text req).
Proof. unfold batch_chars. cbn [foldr]. lia. Qed.

Lemma batch_within_singleton (max_batch : Z) (max_chars : option Z)
      (req : TranslationRequest) :
  1 <= max_batch -> batch_within max_batch max_chars [req].
Proof.
  intros H. repeat split; [discriminate | cbn; lia | intros; right; reflexivity].
Qed.

Lemma split_step_inv (max_batch : Z) (max_chars : option Z) st seen req :
  1 <= max_batch ->
  split_inv max_batch max_chars st seen ->
  split_inv max_batch max_chars (split_step max_batch max_chars st req) (seen ++ [req]).
Proof.
  intros Hmb. destruct st as [[batches current] chars].
  intros (Hcat & Hchars & Hbs & Hcur). unfold split_step.
  destruct (Py.truthy_list current
            && (negb (Z.of_nat (length current) <? max_batch)
                || negb match max_chars with
                        | Some m => chars + Py.len (text req) <=? m
                        | None => true
                        end)) eqn:Hclose.
  - (* the open batch is closed, the request opens a new one *)
    apply andb_true_iff in Hclose as [Hne _].
    destruct Hcur as [-> | Hcur]; [discriminate|].
    repeat split.
    + rewrite concat_app. cbn. rewrite app_nil_r, Hcat. reflexivity.
    + cbn [app]. rewrite batch_chars_single. lia.
    + apply Forall_app. split; [assumption | constructor; [assumption | constructor]].
    + right. apply batch_within_singleton; assumption.
  - (* the request joins the open batch *)
    repeat split.
    + rewrite app_assoc, Hcat. reflexivity.
    + rewrite batch_chars_app, batch_chars_single. lia.
    + assumption.
    + right. destruct current as [| r0 current].
      * apply batch_within_singleton; assumption.
      * cbn [Py.truthy_list andb] in Hclose.
        apply orb_false_iff in Hclose as [Hcount Hfit].
        apply negb_false_iff in Hcount, Hfit.
        apply Z.ltb_lt in Hcount.
        repeat split.
        -- discriminate.
        -- rewrite length_app. cbn [length] in *. lia.
        -- intros m Hm. left. subst max_chars.
           apply Z.leb_le in Hfit.
           rewrite batch_chars_app, batch_chars_single. lia.
Qed.

Lemma split_loop_inv (max_batch : Z) (max_chars : option Z) requests :
  1 <= max_batch ->
  forall st seen,
    split_inv max_batch max_chars st seen ->
    split_inv max_batch max_chars
              (fold_left (split_step max_batch max_chars) requests st)
              (seen ++ requests).
Proof.
  intros Hmb. induction requests as [| req requests IH]; intros st seen Hinv; cbn.
  - rewrite app_nil_r. assumption.
  - replace (seen ++ req :: requests) with ((seen ++ [req]) ++ requests)
      by (rewrite <- app_assoc; reflexivity).
    apply IH. apply split_step_inv; assumption.
Qed.

(** Whatever the capabilities, the batches in order are the requests. *)
Lemma split_concat (requests : list TranslationRequest)
      (capabilities : TranslatorCapabilities) :
  concat (_split_into_batches requests capabilities) = requests.
Proof.
  unfold _split_into_batches.
  destruct (supports_batch capabilities); cbn [negb].
  - set (mb := Z.max 1 _).
    pose proof (split_loop_inv mb (max_chars_per_request capabilities) requests
                  ltac:(subst mb; lia) ([], [], 0) []) as H.
    destruct (fold_left _ requests _) as [[batches current] chars].
    destruct H as (Hcat & _).
    { repeat split; [constructor | left; reflexivity]. }
    cbn in Hcat. destruct current; cbn.
    + rewrite app_nil_r in Hcat. assumption.
    + rewrite concat_app. cbn. rewrite app_nil_r. assumption.
  - induction requests as [| r requests IH]; cbn; [reflexivity | rewrite IH; reflexivity].
Qed.

(** C1, as the code has it.  For a batchable engine every batch is
    non-empty, holds at most [max(1, max_batch_size)] requests, and,
    when [max_chars_per_request] is set, either stays within it or
    consists of one single request; the batches in order are the
    requests. *)
Theorem split_into_batches_limits (requests : list TranslationRequest)
        (capabilities : TranslatorCapabilities) :
  supports_batch capabilities = true ->
  let batches := _split_into_batches requests capabilities in
  concat batches = requests /\
  Forall (batch_within (Z.max 1 (max_batch_size capabilities))
                       (max_chars_per_request capabilities)) batches.
Proof.
  intros Hsb batches. split; [apply split_concat|].
  subst batches. unfold _split_into_batches. rewrite Hsb. cbn [negb].
  replace (Z.max 1 (if max_batch_size capabilities =? 0 then 1
                    else max_batch_size capabilities))
    with (Z.max 1 (max_batch_size capabilities))
    by (destruct (Z.eqb_spec (max_batch_size capabilities) 0); lia).
  set (mb := Z.max 1 _).
  pose proof (split_loop_inv mb (max_chars_per_request capabilities) requests
                ltac:(subst mb; lia) ([], [], 0) []) as H.
  destruct (fold_left _ requests _) as [[bs current] chars].
  destruct H as (_ & _ & Hbs & Hcur).
  { repeat split; [constructor | left; reflexivity]. }
  destruct current as [| r current]; cbn [Py.truthy_list]; [assumption|].
  apply Forall_app. split; [assumption|].
  constructor; [| constructor].
  destruct Hcur as [Hcur | Hcur]; [discriminate | assumption].
Qed.

Lemma split_into_batches_limits_witness :
  let batches :=
    _split_into_batches
      [Examples.request "aaaa"; Examples.request "bbbb"; Examples.request "cccc"]
      (Examples.caps true 2 (Some 10)) in
  concat batches
  = [Examples.request "aaaa"; Examples.request "bbbb"; Examples.request "cccc"] /\
  Forall (batch_within (Z.max 1 2) (Some 10)) batches.
Proof.
  exact (split_into_batches_limits
           [Examples.request "aaaa"; Examples.request "bbbb"; Examples.request "cccc"]
           (Examples.caps true 2 (Some 10)) eq_refl).
Defined.

(** C1 as stated fails: a request longer than [max_chars_per_request]
    still gets a batch, whose characters exceed the limit. *)
Lemma split_into_batches_oversized_request :
  let capabilities := Examples.caps true 2 (Some 3) in
  let batches := _split_into_batches [Examples.request "abcdef"] capabilities in
  supports_batch capabilities = true /\
  max_chars_per_request capabilities = Some 3 /\
  batches = [[Examples.request "abcdef"]] /\
  ~ Forall (fun batch => batch_chars batch <= 3) batches.
Proof.
  cbn. repeat split.
  intros H. inversion H as [| ? ? Hle _]; subst.
  vm_compute in Hle. apply Hle. reflexivity.
Qed.

(** Scenario A of the specification: limits 2 and 100, three requests
    of 40 characters. *)
Example split_scenario_a :
  let r := Examples.request "0123456789012345678901234567890123456789" in
  _split_into_batches [r; r; r] (Examples.caps true 2 (Some 100)) = [[r; r]; [r]].
Proof. reflexivity. Qed.

End BatchFacts.

(** ** RateLimiter.wait_or_raise *)

Section RateLimiterFacts.
Import Limits RateLimiter.

(** C7.  For a text that passes the length check which comes first
    in [wait_or_raise] (at most [max_chars_per_request]): when the
    backoff state is in slow mode with a recorded last error and the
    clock read by [wait_or_raise] is more than 300 seconds past it,
    the call clears slow mode ([slow_mode = false],
    [penalty_delay_sec = 0], [slow_since = 0], [notified = false]),
    records the call time and returns with no sleep, after that single
    read of the clock. *)
Theorem wait_or_raise_clears_expired_slow_mode
        (self : RateLimiter) (text_length : Z) (b : BackoffState) (s : State) :
  text_length <= max_chars_per_request (cfg self) ->
  slow_mode b = true ->
  ~ (last_error_ts b == 0)%Q ->
  (300 < next_reading s - last_error_ts b)%Q ->
  let run := wait_or_raise self text_length (Some b) s in
  result run
  = (Return tt, set_last_call_ts (next_reading s) self,
     Some (mkBackoff 0 (last_error_ts b) false 0 false)) /\
  events run = [] /\
  ticks (world (final run)) = S (ticks (world s)).
Proof.
  intros Hlen Hslow Hts Hold run. subst run.
  unfold wait_or_raise.
  destruct (Z.ltb_spec (max_chars_per_request (cfg self)) text_length); [lia|].
  assert (Hexp : expired (next_reading s) (Some b) = true).
  { unfold expired. rewrite Hslow. cbn [andb].
    apply andb_true_iff. split.
    - unfold Py.truthy_float. apply negb_true_iff.
      destruct (Qeq_bool (last_error_ts b) 0) eqn:E; [| reflexivity].
      apply Qeq_bool_iff in E. contradiction.
    - apply Qltb_lt. exact Hold. }
  unfold next_reading in *.
  unfold bind, monotonic, result, final, events. cbv beta iota zeta.
  rewrite Hexp. cbn. repeat split.
Qed.

Lemma wait_or_raise_clears_expired_slow_mode_witness :
  let limiter := mkLimiter (mkConfig 4 10 800) 0 0 0 in
  let b := mkBackoff 2 1 true 1 true in
  let s := mkState (mkWorld (fun _ => 1000%Q) 0 0 ∅) [] (Context.mkManager 50 []) in
  let run := wait_or_raise limiter 5 (Some b) s in
  result run
  = (Return tt, set_last_call_ts 1000 limiter, Some (mkBackoff 0 1 false 0 false)) /\
  events run = [].
Proof.
  destruct (wait_or_raise_clears_expired_slow_mode
              (mkLimiter (mkConfig 4 10 800) 0 0 0) 5 (mkBackoff 2 1 true 1 true)
              (mkState (mkWorld (fun _ => 1000%Q) 0 0 ∅) [] (Context.mkManager 50 [])))
    as (Hres & Hev & _).
  - cbn. lia.
  - reflexivity.
  - intros H. vm_compute in H. discriminate H.
  - reflexivity.
  - split; [exact Hres | exact Hev].
Defined.

End RateLimiterFacts.

(** ** The rate-limit retry wrapper of the service *)

Section RetryFacts.
Import Limits RateLimiter Service.

Lemma slow_down_spec (now : Q) (b : BackoffState) :
  slow_mode (slow_down now b) = true /\
  last_error_ts (slow_down now b) = now /\
  (2 <= penalty_delay_sec (slow_down now b))%Q /\
  (penalty_delay_sec (slow_down now b) <= 30)%Q.
Proof.
  unfold slow_down; cbn. repeat split.
  - apply py_min_ge; [| lra]. apply py_max_ge_r.
  - apply py_min_le_r.
Qed.

(** After [activate_slow_mode] the table holds a slow entry for the
    engine, with a penalty between 2 and 30 seconds. *)
Lemma activate_slow_mode_entry (engine_id : string) (reason : option string)
      (s : State) :
  exists b,
    backoffs (world (final (activate_slow_mode engine_id reason s))) !! engine_id
    = Some b /\
    slow_mode b = true /\
    (2 <= penalty_delay_sec b)%Q /\ (penalty_delay_sec b <= 30)%Q.
Proof.
  unfold activate_slow_mode, get_backoff_state, put_backoff_state,
    bind, monotonic, modify, ret, final.
  destruct (backoffs (world s) !! engine_id) as [b0|] eqn:E; cbn;
    rewrite lookup_insert_eq; eexists; (split; [reflexivity|]);
    pose proof (slow_down_spec) as H; split; try apply H; split; apply H.
Qed.

(** The entry [activate_slow_mode] leaves for the engine also carries
    the clock value it read as [last_error_ts]. *)
Lemma activate_slow_mode_stamped (engine_id : string) (reason : option string)
      (s : State) :
  exists b,
    backoffs (world (final (activate_slow_mode engine_id reason s))) !! engine_id
    = Some b /\
    slow_mode b = true /\
    last_error_ts b = next_reading s /\
    (2 <= penalty_delay_sec b)%Q /\ (penalty_delay_sec b <= 30)%Q.
Proof.
  unfold activate_slow_mode, get_backoff_state, put_backoff_state,
    bind, monotonic, modify, ret, final, next_reading.
  destruct (backoffs (world s) !! engine_id) as [b0|] eqn:E; cbn;
    rewrite lookup_insert_eq; eexists; (split; [reflexivity|]);
    pose proof (slow_down_spec) as H; split; try apply H;
    (split; [reflexivity|]); split; apply H.
Qed.

Lemma get_backoff_state_silent (engine_id : string) (s : State) :
  snd (get_backoff_state engine_id s) = [].
Proof.
  unfold get_backoff_state. destruct (backoffs (world s) !! engine_id); reflexivity.
Qed.

Lemma activate_slow_mode_silent (engine_id : string) (reason : option string)
      (s : State) :
  snd (activate_slow_mode engine_id reason s) = [].
Proof.
  unfold activate_slow_mode, get_backoff_state, put_backoff_state,
    bind, monotonic, modify, ret.
  destruct (backoffs (world s) !! engine_id); reflexivity.
Qed.

(** [get_backoff_state] returns the entry stored for the engine, a
    fresh one when there is none, and leaves the table holding the
    entry it returned; nothing else changes. *)
Lemma get_backoff_state_stored (engine_id : string) (s : State) :
  let run := get_backoff_state engine_id s in
  result run = default fresh (backoffs (world s) !! engine_id) /\
  backoffs (world (final run)) !! engine_id = Some (result run) /\
  (forall b, backoffs (world s) !! engine_id = Some b -> final run = s) /\
  (forall other, other <> engine_id ->
     backoffs (world (final run)) !! other = backoffs (world s) !! other) /\
  containers (final run) = containers s /\
  ctx_manager (final run) = ctx_manager s.
Proof.
  cbv zeta. unfold get_backoff_state, result, final.
  destruct (backoffs (world s) !! engine_id) as [b|] eqn:E; cbn.
  - repeat split; auto.
  - rewrite lookup_insert_eq. repeat split; try discriminate.
    intros other Hne. apply lookup_insert_ne. congruence.
Qed.

Lemma py_max_left (a b : Q) : (b <= a)%Q -> Py.max a b = a.
Proof.
  intros H. unfold Py.max.
  destruct (Py.Qltb a b) eqn:E; [| reflexivity].
  apply Qltb_lt in E. lra.
Qed.

(** C4.  If the first call does not raise [LimitedModeError], the
    wrapper is that call: same result, state and events.  If it does,
    slow mode is activated for the engine: its entry [b] in the table
    is slow, stamped with the clock value read then, with a penalty
    between 2 and 30 seconds.  The callback (if set) is invoked once.
    The wrapper then sleeps [max(penalty_delay_sec, 1.5)] seconds,
    where [penalty_delay_sec] is read from the entry stored for the
    engine at that moment (a fresh one when the callback removed it):
    at least 1.5 and at least that penalty; without a callback that
    entry is [b] and the sleep is exactly its penalty.  It calls once
    more, from the state that holds that entry; a [LimitedModeError] of
    the second call comes out as a [TranslationError] wrapping it, any
    other result of the second call is the wrapper's. *)
Theorem rate_limit_retry_once {T} (self : TranslationService)
        (engine_id : string) (fn : M (Outcome T)) (s : State) :
  let run := _run_with_rate_limit_retry self engine_id fn s in
  let first := fn s in
  match result first with
  | Raise (LimitedModeError sc msg) =>
      let slowed := final (activate_slow_mode engine_id (Some msg) (final first)) in
      let announced := before_sleep self engine_id msg (final first) in
      let stored := backoffs (world announced) !! engine_id in
      let current := default fresh stored in
      let ready := get_backoff_state engine_id announced in
      let wait_for := Py.max (penalty_delay_sec current) 1.5 in
      let second := fn (final ready) in
      (exists b, backoffs (world slowed) !! engine_id = Some b /\
                 slow_mode b = true /\
                 last_error_ts b = next_reading (final first) /\
                 (2 <= penalty_delay_sec b)%Q /\ (penalty_delay_sec b <= 30)%Q /\
                 (_rate_limit_callback self = None ->
                  announced = slowed /\ stored = Some b /\
                  wait_for = penalty_delay_sec b /\ final ready = slowed)) /\
      result ready = current /\
      backoffs (world (final ready)) !! engine_id = Some current /\
      (stored <> None -> final ready = announced) /\
      (1.5 <= wait_for)%Q /\
      (penalty_delay_sec current <= wait_for)%Q /\
      events run
      = events first
        ++ match _rate_limit_callback self with
           | Some _ => [EvCallback engine_id]
           | None => []
           end
        ++ [EvSleep wait_for] ++ events second /\
      final run = final second /\
      result run
      = match result second with
        | Raise (LimitedModeError sc2 msg2) =>
            Raise (TranslationError msg2 (Some (LimitedModeError sc2 msg2)))
        | out => out
        end
  | _ => run = first
  end.
Proof.
  cbv zeta.
  destruct (result (fn s)) as [v | [sc msg | m c | m | m]] eqn:Hfirst;
    try (unfold _run_with_rate_limit_retry, bind, result, ret in *;
         destruct (fn s) as [[out s1] e1]; cbn [fst snd] in *; subst out;
         cbn; rewrite app_nil_r; reflexivity).
  pose proof (activate_slow_mode_stamped engine_id (Some msg) (final (fn s)))
    as (b & Hb & Hslow & Hts & Hlo & Hhi).
  pose proof (get_backoff_state_stored engine_id
                (before_sleep self engine_id msg (final (fn s))))
    as (Hres & Hlook & Hsame & _).
  cbv zeta in Hres, Hlook, Hsame.
  split.
  { exists b. repeat (split; [assumption|]).
    intros Hnone. unfold before_sleep in *. rewrite Hnone in *.
    split; [reflexivity|]. split; [exact Hb|].
    rewrite Hb. cbn [default]. split; [apply py_max_left; lra|].
    apply (Hsame b Hb). }
  split; [exact Hres|].
  split; [rewrite <- Hres; exact Hlook|].
  split.
  { intros Hsome.
    destruct (backoffs (world (before_sleep self engine_id msg (final (fn s))))
                !! engine_id) as [b'|] eqn:E; [| contradiction].
    apply (Hsame b' eq_refl). }
  split; [apply py_max_ge_r|].
  split; [apply py_max_ge_l|].
  rewrite <- Hres. clear Hres Hlook Hsame Hb Hslow Hts Hlo Hhi b.
  unfold _run_with_rate_limit_retry, before_sleep, bind, result, final, events,
    sleep, emit, modify, ret in *.
  destruct (fn s) as [[out s1] e1]. cbn [fst snd] in *. subst out.
  pose proof (activate_slow_mode_silent engine_id (Some msg) s1) as He2.
  destruct (activate_slow_mode engine_id (Some msg) s1) as [[b2 s2] e2].
  cbn [fst snd] in *. subst e2.
  destruct (_rate_limit_callback self) as [cb|]; cbn [fst snd app].
  - pose proof (get_backoff_state_silent engine_id (cb engine_id s2)) as He3.
    destruct (get_backoff_state engine_id (cb engine_id s2)) as [[b3 s3] e3].
    cbn [fst snd] in *. subst e3. cbn [app].
    destruct (fn s3) as [[out2 s4] e4]. cbn [fst snd].
    destruct out2 as [v2 | [sc2 msg2 | m c | m | m]]; cbn;
      rewrite ?app_nil_r; repeat split.
  - pose proof (get_backoff_state_silent engine_id s2) as He3.
    destruct (get_backoff_state engine_id s2) as [[b3 s3] e3].
    cbn [fst snd] in *. subst e3. cbn [app].
    destruct (fn s3) as [[out2 s4] e4]. cbn [fst snd].
    destruct out2 as [v2 | [sc2 msg2 | m c | m | m]]; cbn;
      rewrite ?app_nil_r; repeat split.
Qed.

(** Scenario C of the specification: the first call raises
    [LimitedModeError], the retry succeeds; the callback consumes the
    slow-mode notice. *)
Example retry_scenario_c :
  let fn : M (Outcome string) :=
    fun s =>
      let w := world s in
      ((if (extern w =? 0)%nat then Raise Examples.throttled else Return "ok"%string,
        set_world (mkWorld (clock w) (ticks w) (S (extern w)) (backoffs w)) s), []) in
  let svc :=
    mkService (Some (fun id s => final (consume_slow_mode_notice id s)))
              (fun _ => Return Examples.engine_echo) in
  let run := _run_with_rate_limit_retry svc "deepl" fn (Examples.state []) in
  result run = Return "ok"%string /\
  events run = [EvCallback "deepl"; EvSleep 2] /\
  backoffs (world (final run)) !! "deepl"%string
  = Some (mkBackoff 2 0 true 0 true).
Proof. cbv zeta. split; [| split]; vm_compute; reflexivity. Qed.

End RetryFacts.

(** ** Translator: the failover loop *)

Section FailoverFacts.
Import Container Base Translator.

(** *** Procedures without events

    Clock reads, container updates and the selection of a container
    leave no event and keep the number of containers. *)

Lemma quiet_ret {A} (a : A) : quiet (ret a).
Proof. intros s. split; reflexivity. Qed.

Lemma quiet_bind {A B} (m : M A) (k : A -> M B) :
  quiet m -> (forall a, quiet (k a)) -> quiet (bind m k).
Proof.
  intros Hm Hk s. unfold bind, events, final in *.
  specialize (Hm s). destruct (m s) as [[a s1] e1]. cbn in Hm.
  specialize (Hk a s1). destruct (k a s1) as [[b s2] e2]. cbn in *.
  destruct Hm as [-> Hl1], Hk as [-> Hl2]. split; [reflexivity | congruence].
Qed.

Lemma quiet_gets {A} (f : State -> A) : quiet (gets f).
Proof. intros s. split; reflexivity. Qed.

Lemma quiet_monotonic : quiet monotonic.
Proof. intros s. split; reflexivity. Qed.

Lemma quiet_update_container i f : quiet (update_container i f).
Proof.
  intros s. split; [reflexivity|].
  unfold update_container, modify, final; cbn. apply length_alter.
Qed.

Ltac quiet_step :=
  repeat first
    [ apply quiet_ret | apply quiet_gets | apply quiet_monotonic
    | apply quiet_update_container
    | apply quiet_bind; [| intros ?]
    | match goal with
      | |- quiet (match ?x with _ => _ end) => destruct x
      | |- quiet (if ?x then _ else _) => destruct x
      end ].

Lemma quiet_is_blocked_m i : quiet (is_blocked_m i).
Proof. unfold is_blocked_m. quiet_step. Qed.

Lemma quiet_mark_success_m i : quiet (mark_success_m i).
Proof. unfold mark_success_m. quiet_step. Qed.

Lemma quiet_mark_failure_m i : quiet (mark_failure_m i).
Proof. unfold mark_failure_m. quiet_step. Qed.

Lemma quiet_unblocked l : quiet (unblocked l).
Proof.
  induction l as [| i l IH]; cbn [unblocked]; [apply quiet_ret|].
  apply quiet_bind; [apply quiet_is_blocked_m | intros b].
  apply quiet_bind; [exact IH | intros keep]. apply quiet_ret.
Qed.

Lemma quiet_get_container pp lu : quiet (_get_container pp lu).
Proof.
  unfold _get_container, _primary_container, restore_m.
  apply quiet_bind; [apply quiet_gets | intros cs].
  apply quiet_bind; [apply quiet_unblocked | intros av].
  quiet_step.
Qed.

(** *** Events, result and final state of a sequence *)

Lemma events_bind {A B} (m : M A) (k : A -> M B) (s : State) :
  events (bind m k s) = events (m s) ++ events (k (result (m s)) (final (m s))).
Proof.
  unfold bind, events, result, final. destruct (m s) as [[a s1] e1]; cbn.
  destruct (k a s1) as [[b s2] e2]; reflexivity.
Qed.

Lemma result_bind {A B} (m : M A) (k : A -> M B) (s : State) :
  result (bind m k s) = result (k (result (m s)) (final (m s))).
Proof.
  unfold bind, events, result, final. destruct (m s) as [[a s1] e1]; cbn.
  destruct (k a s1) as [[b s2] e2]; reflexivity.
Qed.

Lemma final_bind {A B} (m : M A) (k : A -> M B) (s : State) :
  final (bind m k s) = final (k (result (m s)) (final (m s))).
Proof.
  unfold bind, events, result, final. destruct (m s) as [[a s1] e1]; cbn.
  destruct (k a s1) as [[b s2] e2]; reflexivity.
Qed.

(** *** Counting the engine calls of the loop *)

Lemma events_call_engine self request c s :
  events (call_engine self request c s)
  = [EvCall request c (result (call_engine self request c s))].
Proof.
  unfold call_engine, events, result.
  destruct (_translate_request self request c (world s)); reflexivity.
Qed.

Lemma containers_call_engine self request c s :
  containers (final (call_engine self request c s)) = containers s.
Proof.
  unfold call_engine, final.
  destruct (_translate_request self request c (world s)); reflexivity.
Qed.

Lemma count_calls_app (a b : list Event) :
  count_calls (a ++ b) = (count_calls a + count_calls b)%nat.
Proof. unfold count_calls. rewrite List.filter_app, length_app. reflexivity. Qed.

Lemma pause_calls self s :
  count_calls (events ((if 0 <? attempt_delay_ms (capabilities self)
  then sleep (inject_Z (attempt_delay_ms (capabilities self)) / 1000)
  else ret tt) s)) = 0%nat.
Proof. destruct (0 <? _); reflexivity. Qed.

(** The loop calls the engine at most once per remaining attempt. *)
Lemma loop_calls self request left :
  forall container last_error s,
    (count_calls (events (failover_loop self request left container last_error s))
     <= left)%nat.
Proof.
  induction left as [| left IH]; intros container last_error s;
    cbn [failover_loop]; [cbn; lia|].
  destruct container as [c|]; [| cbn; lia].
  rewrite events_bind, events_call_engine, count_calls_app.
  destruct (result (call_engine self request c s)) as [res | [sc msg | msg cause | m | m]];
    rewrite !events_bind, ?(proj1 (quiet_mark_failure_m c _)),
      ?(proj1 (quiet_mark_success_m c _)); cbn [app];
    try (cbn; lia).
  rewrite (proj1 (quiet_get_container _ _ _)). cbn [app].
  rewrite count_calls_app, pause_calls.
  specialize (IH (result (_get_container false (Some c)
                     (final (mark_failure_m c (final (call_engine self request c s))))))
                 (Some (TranslationError msg cause))).
  cbn [count_calls is_call List.filter length] in *.
  match goal with |- (_ + (_ + ?x) <= _)%nat => assert (x <= left)%nat by apply IH end.
  lia.
Qed.

(** *** Runs that use up their attempts *)

Lemma last_call_error_app (a b : list Event) (acc : option PyExc) :
  last_call_error (a ++ b) acc = last_call_error b (last_call_error a acc).
Proof. apply fold_left_app. Qed.

Lemma last_call_error_cons (ev : Event) (evs : list Event) (acc : option PyExc) :
  last_call_error (ev :: evs) acc
  = last_call_error evs (match ev with EvCall _ _ (Raise e) => Some e | _ => acc end).
Proof. reflexivity. Qed.

Lemma last_call_error_some (evs : list Event) (e : PyExc) :
  exists e', last_call_error evs (Some e) = Some e'.
Proof.
  revert e. induction evs as [| ev evs IH]; intros e; cbn; [eauto|].
  destruct ev as [r c [res | e2] | d | id]; apply IH.
Qed.

Lemma pause_events self s :
  let evs := events ((if 0 <? attempt_delay_ms (capabilities self)
                      then sleep (inject_Z (attempt_delay_ms (capabilities self)) / 1000)
                      else ret tt) s) in
  (forall acc, last_call_error evs acc = acc) /\
  (forall ev, In ev evs -> exists d, ev = EvSleep d).
Proof.
  destruct (0 <? _); cbn; split; intros; try reflexivity; try contradiction.
  destruct H as [<- | []]. eauto.
Qed.

(** A loop whose engine calls all raised [TranslationError] ends in
    [after_loop] with the last of them. *)
Lemma loop_exhausted self request left :
  forall container last_error s,
    let run := failover_loop self request left container last_error s in
    Forall call_failed (events run) ->
    result run = after_loop (last_call_error (events run) last_error).
Proof.
  induction left as [| left IH]; intros container last_error s;
    cbn [failover_loop]; [reflexivity|].
  destruct container as [c|]; [| reflexivity].
  cbv zeta. rewrite events_bind, result_bind, events_call_engine.
  destruct (result (call_engine self request c s)) as [res | [sc msg | msg cause | m | m]];
    cbn [app]; intros Hall; inversion Hall as [| ? ? Hfirst Hrest]; subst;
    try contradiction.
  revert Hrest.
  rewrite !events_bind, !result_bind.
  rewrite (proj1 (quiet_mark_failure_m c _)), (proj1 (quiet_get_container _ _ _)).
  cbn [app]. intros Hrest. apply Forall_app in Hrest as [_ Hrest].
  rewrite (IH _ _ _ Hrest).
  rewrite last_call_error_cons, last_call_error_app, (proj1 (pause_events self _)).
  reflexivity.
Qed.

Lemma max_attempts_bounds (cs : list TranslatorContainer) :
  2 <= max_attempts cs /\
  (cs <> [] -> max_attempts cs = 2 * Z.of_nat (length cs)).
Proof.
  unfold max_attempts. split; [lia|].
  intros H. destruct cs; [contradiction | cbn [length]; lia].
Qed.

Lemma sorted_nonempty key (l : list nat) : l <> [] -> sorted key l <> [].
Proof.
  destruct l as [| x l]; [contradiction|]. intros _. cbn.
  destruct (foldr (insert_by key) [] l) as [| y l']; cbn; [discriminate|].
  destruct (key_lt (key y) (key x)); discriminate.
Qed.

Lemma primary_container_run (s : State) :
  _primary_container s = ((primary_index (containers s), s), []).
Proof.
  unfold _primary_container, primary_index, bind, gets, ret. cbn.
  destruct (first_primary (containers s) 0); reflexivity.
Qed.

Lemma primary_index_some (cs : list TranslatorContainer) :
  cs <> [] -> exists p, primary_index cs = Some p.
Proof.
  intros H. unfold primary_index.
  destruct (first_primary cs 0); [eauto|]. destruct cs; [contradiction | eauto].
Qed.

(** With at least one container the first selection of a run finds one. *)
Lemma get_container_prefer_primary_some (last_used : option nat) (s : State) :
  containers s <> [] ->
  exists c, result (_get_container true last_used s) = Some c.
Proof.
  intros Hne. unfold _get_container.
  rewrite !result_bind. cbn [gets result final fst snd].
  set (s1 := final (unblocked _ s)).
  assert (Hcs1 : containers s1 <> []).
  { intros E. apply Hne. apply length_zero_iff_nil.
    rewrite <- (proj2 (quiet_unblocked (seq 0 (length (containers s))) s)).
    fold s1. rewrite E. reflexivity. }
  destruct (result (unblocked _ s)) as [| a av]; cbn [Py.truthy_list negb andb].
  - rewrite result_bind, final_bind, primary_container_run. cbn [result final fst snd].
    destruct (primary_index_some _ Hcs1) as [p ->].
    cbn -[sorted]. eauto.
  - cbn [ret result final fst snd Py.truthy_list negb].
    rewrite result_bind. cbn [gets result final fst snd].
    destruct (sorted (sort_key (containers s1) last_used) (a :: av))
      as [| ch rest] eqn:E.
    + exfalso. revert E. apply sorted_nonempty. discriminate.
    + rewrite !result_bind. cbn. eauto.
Qed.

Lemma loop_first_call self request left c last_error s :
  exists rest,
    events (failover_loop self request (S left) (Some c) last_error s)
    = EvCall request c (result (call_engine self request c s)) :: rest.
Proof.
  cbn [failover_loop]. rewrite events_bind, events_call_engine. cbn [app]. eauto.
Qed.

(** C2.  With at least one container, a run of the failover calls the
    concrete engine at most [2 * len(containers)] times; that bound is
    [max_attempts], which is at least 2 for any list of containers.  A
    run in which every engine call raised a [TranslationError] (the runs
    that leave the loop because the attempts are used up or because no
    container could be selected) ends by raising a [TranslationError]
    whose message and cause are those of the last such error.  The run
    is a total function: it always ends. *)
Theorem failover_attempts_capped (self : Translator) (request : TranslationRequest)
        (s : State) :
  containers s <> [] ->
  let run := _translate_with_failover self request s in
  (count_calls (events run) <= 2 * length (containers s))%nat /\
  max_attempts (containers s) = 2 * Z.of_nat (length (containers s)) /\
  (forall cs, 2 <= max_attempts cs) /\
  (Forall call_failed (events run) ->
   exists e, last_call_error (events run) None = Some e /\
             result run = Raise (TranslationError (str e) (Some e))).
Proof.
  intros Hne run. subst run. unfold _translate_with_failover.
  rewrite !events_bind, !result_bind.
  pose proof (quiet_get_container true None s) as [Hev Hlen].
  rewrite Hev. cbn [gets events result final fst snd app].
  set (s1 := final (_get_container true None s)) in *.
  set (sel := result (_get_container true None s)).
  pose proof (max_attempts_bounds (containers s1)) as [Hge2 Hmax].
  assert (Hne1 : containers s1 <> []).
  { intros E. apply Hne. apply length_zero_iff_nil. rewrite <- Hlen, E. reflexivity. }
  specialize (Hmax Hne1).
  split; [| split; [| split]].
  - etransitivity; [apply loop_calls|]. lia.
  - apply max_attempts_bounds. assumption.
  - intros cs. apply max_attempts_bounds.
  - intros Hall. rewrite (loop_exhausted _ _ _ _ _ _ Hall).
    destruct (get_container_prefer_primary_some None s Hne) as [c Hc].
    fold sel in Hc. rewrite Hc in *.
    destruct (Z.to_nat (max_attempts (containers s1))) as [| left] eqn:El; [lia|].
    destruct (loop_first_call self request left c None s1) as [rest Hrest].
    rewrite Hrest in *. inversion Hall as [| ? ? Hfirst _]; subst.
    rewrite last_call_error_cons.
    destruct (result (call_engine self request c s1)) as [res | e]; [contradiction|].
    destruct (last_call_error_some rest e) as [e' He']. rewrite He'.
    exists e'. split; reflexivity.
Qed.

Lemma failover_attempts_capped_witness :
  let run := _translate_with_failover (Examples.engine_raising Examples.boom)
               (Examples.request "text")
               (Examples.state [Examples.container true 3; Examples.container false 3]) in
  (count_calls (events run) <= 2 * 2)%nat /\
  exists e, last_call_error (events run) None = Some e /\
            result run = Raise (TranslationError (str e) (Some e)).
Proof.
  pose proof (failover_attempts_capped
                (Examples.engine_raising Examples.boom) (Examples.request "text")
                (Examples.state [Examples.container true 3; Examples.container false 3])
                ltac:(discriminate)) as (Hcount & _ & _ & Hlast).
  split; [exact Hcount|].
  apply Hlast. vm_compute. repeat constructor.
Defined.

(** *** A rate-limit failure ends the run *)

Lemma mark_failure_unread (t1 t2 t2' : Q) (c : TranslatorContainer) :
  (max_failures c <=? fail_uses c + 1) = false ->
  mark_failure t1 t2 c = mark_failure t1 t2' c.
Proof. intros H. unfold mark_failure. cbn. rewrite H. reflexivity. Qed.

(** [mark_failure_m] is [mark_failure] at the next two values of the
    clock, applied to the container in place; it reads one or two. *)
Lemma mark_failure_m_run (c : nat) (s : State) :
  exists n,
    (n = 1 \/ n = 2)%nat /\
    mark_failure_m c s
    = ((tt, set_containers
              (alter (mark_failure (clock (world s) (ticks (world s)))
                                   (clock (world s) (S (ticks (world s)))))
                     c (containers s))
              (advance n s)), []).
Proof.
  unfold mark_failure_m, bind, gets, monotonic, update_container, modify, ret, advance.
  cbn. destruct (containers s !! c) as [cont|] eqn:E.
  - destruct (max_failures cont <=? fail_uses cont + 1) eqn:El; cbn.
    + exists 2%nat. split; [auto|]. reflexivity.
    + exists 1%nat. split; [auto|].
      rewrite (list_alter_ext
                 (mark_failure (clock (world s) (ticks (world s)))
                               (clock (world s) (ticks (world s))))
                 (mark_failure (clock (world s) (ticks (world s)))
                               (clock (world s) (S (ticks (world s)))))
                 (containers s) (containers s) c); [reflexivity | | reflexivity].
      intros x Hx. rewrite E in Hx. injection Hx as <-.
      apply mark_failure_unread. assumption.
  - exists 1%nat. split; [auto|].
    rewrite (list_alter_ext
               (mark_failure (clock (world s) (ticks (world s)))
                             (clock (world s) (S (ticks (world s)))))
               (fun x => x) (containers s) (containers s) c);
      [| intros x Hx; congruence | reflexivity].
    rewrite list_alter_id by reflexivity.
    destruct s; reflexivity.
Qed.

(** One iteration whose engine call raises [LimitedModeError]. *)
Lemma loop_limited_step self request left c last_error s sc msg w1 :
  _translate_request self request c (world s) = (Raise (LimitedModeError sc msg), w1) ->
  let run := failover_loop self request (S left) (Some c) last_error s in
  result run = Raise (LimitedModeError sc msg) /\
  events run = [EvCall request c (Raise (LimitedModeError sc msg))] /\
  containers (final run)
  = alter (mark_failure (clock w1 (ticks w1)) (clock w1 (S (ticks w1)))) c (containers s).
Proof.
  intros Hcall run. subst run. cbn [failover_loop].
  assert (Hengine : call_engine self request c s
                    = ((Raise (LimitedModeError sc msg), set_world w1 s),
                       [EvCall request c (Raise (LimitedModeError sc msg))])).
  { unfold call_engine. rewrite Hcall. reflexivity. }
  destruct (mark_failure_m_run c (set_world w1 s)) as (n & _ & Hrun).
  rewrite result_bind, events_bind, final_bind, Hengine.
  cbn [result final events fst snd].
  rewrite result_bind, events_bind, final_bind, Hrun.
  cbn. repeat split.
Qed.

Lemma in_pause_not_call self s ev :
  In ev (events ((if 0 <? attempt_delay_ms (capabilities self)
                  then sleep (inject_Z (attempt_delay_ms (capabilities self)) / 1000)
                  else ret tt) s)) ->
  is_call ev = false.
Proof.
  intros H. apply (proj2 (pause_events self s)) in H as [d ->]. reflexivity.
Qed.

(** In the events of the loop a call that raised [LimitedModeError]
    comes last, and the loop raises that exception. *)
Lemma loop_limited_last self request left :
  forall container last_error s r c sc msg,
    let run := failover_loop self request left container last_error s in
    let ev := EvCall r c (Raise (LimitedModeError sc msg)) in
    In ev (events run) ->
    result run = Raise (LimitedModeError sc msg) /\
    exists before, events run = before ++ [ev].
Proof.
  induction left as [| left IH]; intros container last_error s r c sc msg;
    cbn [failover_loop]; cbv zeta; [intros []|].
  destruct container as [c0|]; [| intros []].
  rewrite events_bind, result_bind, events_call_engine.
  destruct (result (call_engine self request c0 s))
    as [res | [sc0 msg0 | msg0 cause | m | m]];
    rewrite !events_bind, !result_bind,
      ?(proj1 (quiet_mark_failure_m c0 _)), ?(proj1 (quiet_mark_success_m c0 _));
    cbn [app ret events result fst snd]; intros Hin;
    try (destruct Hin as [Hin | []]; try discriminate Hin).
  - injection Hin as <- <- <- <-. split; [reflexivity|]. exists []. reflexivity.
  - destruct Hin as [Hin | Hin]; [discriminate Hin|].
    revert Hin. rewrite (proj1 (quiet_get_container _ _ _)). cbn [app]. intros Hin.
    apply in_app_or in Hin as [Hin | Hin].
    + apply in_pause_not_call in Hin. discriminate Hin.
    + destruct (IH _ _ _ _ _ _ _ Hin) as [Hres [before Hbefore]].
      split; [exact Hres|].
      rewrite Hbefore. eexists (_ :: _ ++ before).
      cbn [app]. rewrite <- app_assoc. reflexivity.
Qed.

(** *** Selection when every container is blocked *)





Lemma first_primary_lookup (cs : list TranslatorContainer) :
  forall k i, first_primary cs k = Some i ->
              (k <= i)%nat /\ exists c, cs !! (i - k)%nat = Some c.
Proof.
  induction cs as [| c cs IH]; intros k i H; cbn in H; [discriminate|].
  destruct (is_primary c).
  - injection H as <-. split; [lia|]. rewrite Nat.sub_diag. cbn. eauto.
  - apply IH in H as [Hle [c' Hc']]. split; [lia|].
    exists c'. replace (i - k)%nat with (S (i - S k)) by lia. exact Hc'.
Qed.


(** What [mark_failure] leaves in each field of the container. *)
Lemma mark_failure_fields (t1 t2 : Q) (k : TranslatorContainer) :
  mark_failure t1 t2 k
  = mkContainer (name k) (is_primary k) (block_timeout_sec k) (max_failures k)
                (fail_uses k + 1)
                (if max_failures k <=? fail_uses k + 1
                 then Some (t2 + block_timeout_sec k)%Q
                 else blocked_until k)
                t1 (extra k).
Proof.
  unfold mark_failure. cbn.
  destruct (max_failures k <=? fail_uses k + 1); reflexivity.
Qed.

(** C3.  At any iteration of the failover loop, if the engine call
    raises [LimitedModeError], the loop ends there: the result is that
    same exception, the only event is the call itself (no sleep, no
    further call), and the containers are those before the call with
    the current one marked failed.  Marked failed means: the current
    container [k] has [fail_uses] raised by one and [last_used_at] set
    to the clock value read after the call; when the new count reaches
    [max_failures] its [blocked_until] is the next clock value plus
    [block_timeout_sec], so that it is blocked from then on, otherwise
    [blocked_until] stays as it was; its other fields, the other
    containers and their number are unchanged.  For a whole run: a call
    that raised [LimitedModeError] is the last event of the run, and
    the run raises that exception. *)
Theorem limited_mode_error_reraised (self : Translator) (request : TranslationRequest)
        (left c : nat) (last_error : option PyExc) (s : State)
        (sc : option Z) (msg : string) (w1 : World)
        (s0 : State) (r : TranslationRequest) (c0 : nat)
        (sc0 : option Z) (msg0 : string) :
  (_translate_request self request c (world s) = (Raise (LimitedModeError sc msg), w1) ->
   let run := failover_loop self request (S left) (Some c) last_error s in
   let t1 := clock w1 (ticks w1) in
   let t2 := clock w1 (S (ticks w1)) in
   result run = Raise (LimitedModeError sc msg) /\
   events run = [EvCall request c (Raise (LimitedModeError sc msg))] /\
   containers (final run) = alter (mark_failure t1 t2) c (containers s) /\
   length (containers (final run)) = length (containers s) /\
   (forall j, j <> c -> containers (final run) !! j = containers s !! j) /\
   (forall k, containers s !! c = Some k ->
      containers (final run) !! c
      = Some (mkContainer (name k) (is_primary k) (block_timeout_sec k)
                          (max_failures k) (fail_uses k + 1)
                          (if max_failures k <=? fail_uses k + 1
                           then Some (t2 + block_timeout_sec k)%Q
                           else blocked_until k)
                          t1 (extra k)) /\
      (max_failures k <= fail_uses k + 1 ->
       forall now k', containers (final run) !! c = Some k' ->
                      (now < t2 + block_timeout_sec k)%Q -> is_blocked now k' = true))) /\
  (let run := _translate_with_failover self request s0 in
   let ev := EvCall r c0 (Raise (LimitedModeError sc0 msg0)) in
   In ev (events run) ->
   result run = Raise (LimitedModeError sc0 msg0) /\
   exists before, events run = before ++ [ev]).
Proof.
  split.
  - intros Hcall run t1 t2.
    destruct (loop_limited_step self request left c last_error s sc msg w1 Hcall)
      as (Hres & Hev & Hcs).
    fold run in Hres, Hev, Hcs. fold t1 t2 in Hcs.
    split; [exact Hres|]. split; [exact Hev|]. split; [exact Hcs|].
    rewrite Hcs. split; [apply length_alter|].
    split; [intros j Hj; apply list_lookup_alter_ne; congruence|].
    intros k Hk.
    assert (Hnew : alter (mark_failure t1 t2) c (containers s) !! c
                   = Some (mark_failure t1 t2 k)).
    { rewrite list_lookup_alter_eq, Hk. reflexivity. }
    rewrite Hnew, mark_failure_fields. split; [reflexivity|].
    intros Hlim now k' Hk' Hnow. injection Hk' as <-.
    unfold is_blocked. cbn [blocked_until].
    destruct (Z.leb_spec (max_failures k) (fail_uses k + 1)); [| lia].
    apply Qltb_lt. exact Hnow.
  - cbv zeta. unfold _translate_with_failover.
    rewrite !events_bind, !result_bind.
    rewrite (proj1 (quiet_get_container true None s0)).
    cbn [gets events result final fst snd app].
    apply loop_limited_last.
Qed.

Lemma limited_mode_error_reraised_witness :
  let self := Examples.engine_raising Examples.throttled in
  let s := Examples.state [Examples.container true 3; Examples.container false 1] in
  let step := failover_loop self (Examples.request "text") 4 (Some 1%nat) None s in
  let run := _translate_with_failover self (Examples.request "text") s in
  (result step = Raise Examples.throttled /\
   events step = [EvCall (Examples.request "text") 1 (Raise Examples.throttled)] /\
   containers (final step)
   = [Examples.container true 3;
      mkContainer "c" false 60 1 1 (Some (1 + 60)%Q) 0 ∅]) /\
  (result run = Raise Examples.throttled /\
   exists before,
     events run = before ++ [EvCall (Examples.request "text") 0 (Raise Examples.throttled)]).
Proof.
  pose proof (limited_mode_error_reraised
                (Examples.engine_raising Examples.throttled) (Examples.request "text")
                3 1 None
                (Examples.state [Examples.container true 3; Examples.container false 1])
                (Some 429) "rate limit"
                (world (Examples.state [Examples.container true 3;
                                        Examples.container false 1]))
                (Examples.state [Examples.container true 3; Examples.container false 1])
                (Examples.request "text") 0 (Some 429) "rate limit") as [Hstep Hrun].
  split.
  - destruct (Hstep eq_refl) as (Hres & Hev & Hcs & _).
    split; [exact Hres|]. split; [exact Hev|].
    rewrite Hcs. reflexivity.
  - apply Hrun. vm_compute. left. reflexivity.
Defined.




(** Scenario B of the specification: two containers, the first fails
    twice with a failure limit of 2, then the second succeeds. *)
Example failover_scenario_b :
  let flaky :=
    mkTranslator "deepl" (Examples.caps true 50 (Some 4500))
      (fun req c w =>
         (match c with
          | O => Raise Examples.boom
          | _ => Return (mkResult "ok" None [])
          end, w)) in
  let s := Examples.state [Examples.container true 1; Examples.container false 3] in
  let run := _translate_with_failover flaky (Examples.request "text") s in
  result run = Return (mkResult "ok" None []) /\
  count_calls (events run) = 2%nat /\
  (exists c1 c2, containers (final run) = [c1; c2] /\
                 is_blocked (next_reading (final run)) c1 = true /\
                 fail_uses c2 = 0).
Proof.
  cbv zeta. split; [vm_compute; reflexivity|]. split; [vm_compute; reflexivity|].
  do 2 eexists. split; [vm_compute; reflexivity|]. split; reflexivity.
Qed.

End FailoverFacts.

(** ** TranslationService.translate_blocks *)

Section ServiceFacts.
Import Base Translator Service.

(** *** Which requests reach the engine *)

Lemma calls_within_nil reqs : calls_within reqs [].
Proof. intros r c out []. Qed.

Lemma calls_within_app reqs a b :
  calls_within reqs a -> calls_within reqs b -> calls_within reqs (a ++ b).
Proof.
  intros Ha Hb r c out Hin. apply in_app_or in Hin as [Hin | Hin]; eauto.
Qed.

Lemma calls_within_weaken reqs reqs' evs :
  (forall r, In r reqs -> In r reqs') -> calls_within reqs evs -> calls_within reqs' evs.
Proof. intros Hsub H r c out Hin. eauto. Qed.

Lemma loop_calls_within self request left :
  forall container last_error s,
    calls_within [request]
      (events (failover_loop self request left container last_error s)).
Proof.
  induction left as [| left IH]; intros container last_error s;
    cbn [failover_loop]; [apply calls_within_nil|].
  destruct container as [c|]; [| apply calls_within_nil].
  rewrite events_bind, events_call_engine.
  apply calls_within_app.
  { intros r c' out [[= <- _ _] | []]. left. reflexivity. }
  destruct (result (call_engine self request c s)) as [res | [sc msg | msg cause | m | m]];
    rewrite !events_bind, ?(proj1 (quiet_mark_failure_m c _)),
      ?(proj1 (quiet_mark_success_m c _)); cbn [app ret events snd];
    try apply calls_within_nil.
  rewrite (proj1 (quiet_get_container _ _ _)). cbn [app].
  apply calls_within_app; [| apply IH].
  intros r c' out Hin. apply in_pause_not_call in Hin. discriminate Hin.
Qed.

Lemma failover_calls_within self request s :
  calls_within [request] (events (_translate_with_failover self request s)).
Proof.
  unfold _translate_with_failover. rewrite !events_bind.
  rewrite (proj1 (quiet_get_container true None s)).
  cbn [gets events snd app]. apply loop_calls_within.
Qed.

Lemma translate_batch_calls_within self requests :
  forall s, calls_within requests (events (translate_batch self requests s)).
Proof.
  induction requests as [| req requests IH]; intros s; cbn [translate_batch];
    [apply calls_within_nil|].
  rewrite events_bind. apply calls_within_app.
  - eapply calls_within_weaken; [| apply failover_calls_within].
    intros r [<- | []]. left. reflexivity.
  - destruct (result (_translate_with_failover self req s)) as [res | e];
      [| apply calls_within_nil].
    rewrite events_bind. apply calls_within_app.
    + eapply calls_within_weaken; [| apply IH]. intros r Hr. right. exact Hr.
    + destruct (result (translate_batch self requests _)); apply calls_within_nil.
Qed.

Lemma retry_calls_within {T} svc engine_id (fn : M (Outcome T)) reqs :
  (forall s, calls_within reqs (events (fn s))) ->
  forall s, calls_within reqs (events (_run_with_rate_limit_retry svc engine_id fn s)).
Proof.
  intros Hfn s. unfold _run_with_rate_limit_retry.
  rewrite events_bind. apply calls_within_app; [apply Hfn|].
  destruct (result (fn s)) as [v | [sc msg | m c | m | m]];
    try apply calls_within_nil.
  rewrite !events_bind.
  repeat apply calls_within_app.
  - unfold events. rewrite activate_slow_mode_silent. apply calls_within_nil.
  - destruct (_rate_limit_callback svc); [| apply calls_within_nil].
    rewrite events_bind. cbn. intros r c out [Hin | []]. discriminate Hin.
  - unfold events. rewrite get_backoff_state_silent. apply calls_within_nil.
  - intros r c out [Hin | []]. discriminate Hin.
  - apply Hfn.
  - match goal with
    | |- context [match ?o with _ => _ end] =>
        destruct o as [v | [sc2 msg2 | m c | m | m]]
    end; apply calls_within_nil.
Qed.

Lemma run_batches_calls_within svc translator engine_id batches :
  forall s, calls_within (concat batches)
              (events (run_batches svc translator engine_id batches s)).
Proof.
  induction batches as [| batch batches IH]; intros s; cbn [run_batches];
    [apply calls_within_nil|].
  rewrite events_bind. apply calls_within_app.
  - eapply calls_within_weaken;
      [| apply retry_calls_within; apply translate_batch_calls_within].
    intros r Hr. cbn. apply in_or_app. left. exact Hr.
  - destruct (result (_run_with_rate_limit_retry _ _ _ s)) as [res | e];
      [| apply calls_within_nil].
    rewrite events_bind. apply calls_within_app.
    + eapply calls_within_weaken; [| apply IH].
      intros r Hr. cbn. apply in_or_app. right. exact Hr.
    + destruct (result (run_batches _ _ _ _ _)); apply calls_within_nil.
Qed.

Lemma blank_spec (text : string) : blank text = true <-> Py.strip text = ""%string.
Proof.
  unfold blank. destruct (Py.strip text); cbn; split; intros H;
    try reflexivity; discriminate H.
Qed.

(** *** The loops over the blocks *)

(** The first loop: no event, no state change; blank blocks get the
    empty translation, the others a request with their text. *)
Lemma collect_requests_spec project knowledge src dst limit (blocks : list Page.TextBlock) :
  forall k s,
    let run := collect_requests project knowledge src dst limit k blocks s in
    events run = [] /\
    final run = s /\
    fst (result run)
    = map (fun b => if blank (Page.original_text b)
                    then Page.set_translated_text "" b else b) blocks /\
    (forall j req, In (j, req) (snd (result run)) ->
       (k <= j)%nat /\
       exists b, blocks !! (j - k)%nat = Some b /\
                 blank (Page.original_text b) = false /\
                 text req = Page.original_text b).
Proof.
  induction blocks as [| block blocks IH]; intros k s; cbn [collect_requests].
  - cbn. split; [| split; [| split]]; try reflexivity. intros j req [].
  - specialize (IH (S k) s). cbv zeta in IH. cbv zeta.
    fold (blank (Page.original_text block)).
    destruct (blank (Page.original_text block)) eqn:Hb.
    + rewrite events_bind, final_bind, result_bind.
      destruct IH as (Hev & Hfin & Hres & Hpairs).
      rewrite Hev, Hfin. cbn [ret events final result fst snd app].
      rewrite Hres. cbn [map]. rewrite Hb.
      split; [| split; [| split]]; try reflexivity.
      intros j req H.
      apply Hpairs in H as [Hle (b & Hlook & Hnb & Htext)].
      split; [lia|].
      exists b. replace (j - k)%nat with (S (j - S k)) by lia. auto.
    + rewrite !events_bind, !final_bind, !result_bind.
      cbn [gets events final result fst snd app].
      destruct IH as (Hev & Hfin & Hres & Hpairs).
      rewrite Hev, Hfin, Hres. cbn [map]. rewrite Hb.
      split; [| split; [| split]]; try reflexivity.
      intros j req H.
      destruct H as [[= <- <-] | H].
      * split; [lia|]. exists block. rewrite Nat.sub_diag. cbn. auto.
      * apply Hpairs in H as [Hle (b & Hlook & Hnb & Htext)].
        split; [lia|].
        exists b. replace (j - k)%nat with (S (j - S k)) by lia. auto.
Qed.

(** The last loop leaves alone every position it has no pair for. *)
Lemma apply_results_spec knowledge (i : nat) pairs :
  forall blocks s,
    (forall j req res, In ((j, req), res) pairs -> j <> i) ->
    let run := apply_results knowledge pairs blocks s in
    events run = [] /\ result run !! i = blocks !! i.
Proof.
  induction pairs as [| [[j req] res] pairs IH]; intros blocks s Hne;
    cbn [apply_results]; [split; reflexivity|].
  cbv zeta. rewrite events_bind, result_bind.
  set (upd := if Py.truthy_str _ then _ else _).
  assert (Hupd : events (upd s) = []) by (subst upd; destruct (Py.truthy_str _); reflexivity).
  rewrite Hupd. cbn [app].
  destruct (IH (alter (Page.set_translated_text
                         (_apply_glossary_and_name_fixes (translated_text res) knowledge))
                      j blocks) (final (upd s))) as [Hev Hres].
  { intros j' req' res' Hin. apply (Hne j' req' res'). right. exact Hin. }
  split; [exact Hev|]. rewrite Hres.
  apply list_lookup_alter_ne. apply (Hne j req res). left. reflexivity.
Qed.

Lemma apply_results_silent knowledge pairs :
  forall blocks s, events (apply_results knowledge pairs blocks s) = [].
Proof.
  induction pairs as [| [[j req] res] pairs IH]; intros blocks s;
    cbn [apply_results]; [reflexivity|].
  rewrite events_bind, IH. destruct (Py.truthy_str _); reflexivity.
Qed.

Lemma in_zip_l {A B} (l : list A) (k : list B) a b :
  In (a, b) (zip l k) -> In a l.
Proof.
  revert k. induction l as [| x l IH]; intros [| y k] H; cbn in H; try contradiction.
  destruct H as [[= <- _] | H]; [left; reflexivity | right; eauto].
Qed.

Lemma collected_pair_not_blank project knowledge src dst limit blocks s i b j req :
  blocks !! i = Some b ->
  blank (Page.original_text b) = true ->
  In (j, req) (snd (result (collect_requests project knowledge src dst limit 0 blocks s))) ->
  j <> i /\
  exists bj, blocks !! j = Some bj /\ blank (Page.original_text bj) = false /\
             text req = Page.original_text bj.
Proof.
  intros Hb Hblank Hin.
  destruct (collect_requests_spec project knowledge src dst limit blocks 0 s)
    as (_ & _ & _ & Hpairs).
  apply Hpairs in Hin as [_ (bj & Hbj & Hnb & Htext)].
  rewrite Nat.sub_0_r in Hbj. split; [| eauto].
  intros ->. rewrite Hb in Hbj. injection Hbj as <-. congruence.
Qed.

(** C8, as the code has it.  Once the translator is resolved, a block
    whose [original_text] is empty or whitespace-only comes out of
    [translate_blocks] with [translated_text] set to the empty string
    and every other field as it was, whether the call returns or
    raises; no request is built for its position; and every engine call
    of the run carries the non-blank text of a block at another
    position. *)
Theorem blank_blocks_get_empty_translation
        (svc : TranslationService) (blocks : list Page.TextBlock)
        (project : Knowledge.TitleProject) (knowledge : Knowledge.TitleKnowledge)
        (engine_id : string) (src_lang dst_lang : option string)
        (reset_context : bool) (s : State)
        (translator : Translator) (i : nat) (b : Page.TextBlock) :
  _get_translator svc (normalize_translator_id engine_id) = Return translator ->
  blocks !! i = Some b ->
  Py.strip (Page.original_text b) = ""%string ->
  let run := translate_blocks svc blocks project knowledge engine_id
               src_lang dst_lang reset_context s in
  snd (result run) !! i = Some (Page.set_translated_text "" b) /\
  (forall src dst limit s' j req,
      In (j, req) (snd (result (collect_requests project knowledge src dst limit 0
                                  blocks s'))) ->
      j <> i) /\
  (forall req c out,
      In (EvCall req c out) (events run) ->
      Py.strip (text req) <> ""%string /\
      exists j bj, j <> i /\ blocks !! j = Some bj /\ text req = Page.original_text bj).
Proof.
  intros Hres Hb Hstrip run. apply blank_spec in Hstrip. subst run.
  split; [| split].
  - unfold translate_blocks. rewrite Hres.
    rewrite !result_bind.
    set (s0 := final (_ s)).
    match goal with
    | |- context [collect_requests ?p ?k ?sr ?ds ?l 0%nat blocks s0] =>
        pose proof (collect_requests_spec p k sr ds l blocks 0 s0) as (_ & Hfin & Hfst & _);
        pose proof (fun j req => collected_pair_not_blank p k sr ds l blocks s0 i b j req
                                   Hb Hstrip) as Hpairs;
        set (r := result (collect_requests p k sr ds l 0%nat blocks s0)) in *
    end.
    assert (Hi : fst r !! i = Some (Page.set_translated_text "" b)).
    { rewrite Hfst, list_lookup_fmap, Hb. cbn. rewrite Hstrip. reflexivity. }
    destruct (negb (Py.truthy_list (map snd (snd r)))); [exact Hi|].
    rewrite result_bind.
    destruct (result (run_batches _ _ _ _ _)) as [all_results | e]; [| exact Hi].
    destruct (negb (length all_results =? length (snd r))%nat); [exact Hi|].
    rewrite result_bind. cbn [ret result fst snd].
    match goal with
    | |- result (apply_results ?k ?pairs ?bl ?st) !! i = _ =>
        destruct (apply_results_spec k i pairs bl st) as [_ ->]; [| exact Hi]
    end.
    intros j req res Hin. apply in_zip_l in Hin.
    apply Hpairs in Hin as [Hne _]. exact Hne.
  - intros src dst limit s' j req Hin.
    apply (collected_pair_not_blank _ _ _ _ _ _ _ i b j req Hb Hstrip) in Hin as [Hne _].
    exact Hne.
  - intros req c out. unfold translate_blocks. rewrite Hres.
    rewrite !events_bind.
    set (reset := if reset_context then _ else _).
    assert (Hreset : events (reset s) = [])
      by (subst reset; destruct reset_context; reflexivity).
    rewrite Hreset. cbn [app].
    set (s0 := final (reset s)).
    match goal with
    | |- context [collect_requests ?p ?k ?sr ?ds ?l 0%nat blocks s0] =>
        pose proof (collect_requests_spec p k sr ds l blocks 0 s0) as (Hev & _ & _ & _);
        pose proof (fun j req => collected_pair_not_blank p k sr ds l blocks s0 i b j req
                                   Hb Hstrip) as Hpairs;
        rewrite Hev;
        set (r := result (collect_requests p k sr ds l 0%nat blocks s0)) in *
    end.
    cbn [app].
    assert (Hbatches : forall st,
               In (EvCall req c out)
                  (events (run_batches svc translator (normalize_translator_id engine_id)
                             (_split_into_batches (map snd (snd r))
                                (capabilities translator)) st)) ->
               Py.strip (text req) <> ""%string /\
               exists j bj, j <> i /\ blocks !! j = Some bj /\
                            text req = Page.original_text bj).
    { intros st Hin. apply run_batches_calls_within in Hin.
      rewrite split_concat in Hin. apply in_map_iff in Hin as ([j req'] & <- & Hin).
      apply Hpairs in Hin as [Hne (bj & Hbj & Hnb & Htext)]. cbn [snd].
      split; [| eauto].
      rewrite Htext. intros E. apply blank_spec in E. congruence. }
    destruct (negb (Py.truthy_list (map snd (snd r)))); [intros []|].
    rewrite events_bind. intros Hin. apply in_app_or in Hin as [Hin | Hin];
      [exact (Hbatches _ Hin)|].
    exfalso. revert Hin.
    destruct (result (run_batches _ _ _ _ _)) as [all_results | e]; [| intros []].
    destruct (negb (length all_results =? length (snd r))%nat); [intros []|].
    rewrite events_bind.
    rewrite apply_results_silent. intros [].
Qed.
Lemma blank_blocks_get_empty_translation_witness :
  let blocks := [Examples.block "b1" "hello" "old"; Examples.block "b2" "   " "old"] in
  let run := translate_blocks Examples.service blocks Examples.project
               Examples.knowledge "deepl" None None false (Examples.state [Examples.container true 3]) in
  snd (result run) !! 1%nat
  = Some (Page.set_translated_text "" (Examples.block "b2" "   " "old")) /\
  (forall req c out, In (EvCall req c out) (events run) ->
                     Py.strip (text req) <> ""%string).
Proof.
  destruct (blank_blocks_get_empty_translation
              Examples.service
              [Examples.block "b1" "hello" "old"; Examples.block "b2" "   " "old"]
              Examples.project Examples.knowledge "deepl" None None false
              (Examples.state [Examples.container true 3]) Examples.engine_echo 1
              (Examples.block "b2" "   " "old")
              eq_refl eq_refl eq_refl) as (Hblock & _ & Hcalls).
  split; [exact Hblock|].
  intros req c out Hin. apply (Hcalls req c out Hin).
Defined.

(** C8 as stated fails: a blank block that carried a translation loses
    it, [translate_blocks] assigns the empty string to its
    [translated_text]. *)
Lemma blank_block_translation_overwritten :
  let b := Examples.block "b2" "   " "old" in
  let run := translate_blocks Examples.service [b] Examples.project
               Examples.knowledge "deepl" None None false (Examples.state [Examples.container true 3]) in
  Py.strip (Page.original_text b) = ""%string /\
  Page.translated_text b = "old"%string /\
  events run = [] /\
  (exists b', snd (result run) = [b'] /\ Page.translated_text b' = ""%string) /\
  snd (result run) <> [b].
Proof.
  cbv zeta. split; [reflexivity|]. split; [reflexivity|].
  split; [vm_compute; reflexivity|]. split.
  - eexists. split; [vm_compute; reflexivity | reflexivity].
  - vm_compute. discriminate.
Qed.

(** A run over a blank and a non-blank block with an engine that
    returns what it is given. *)
Example translate_blocks_two_blocks :
  let blocks := [Examples.block "b1" "hello" "old"; Examples.block "b2" "   " "old"] in
  let run := translate_blocks Examples.service blocks Examples.project
               Examples.knowledge "deepl" None None false (Examples.state [Examples.container true 3]) in
  map Page.translated_text (snd (result run)) = ["hello"; ""]%string /\
  count_calls (events run) = 1%nat.
Proof. cbv zeta. split; vm_compute; reflexivity. Qed.

End ServiceFacts.

(* ================================================================== *)
(** * Further properties of the code *)
(* ================================================================== *)

Section ContextMore.
Import Context.

Lemma recent_all {A} (n : nat) (l : list A) : (length l <= n)%nat -> recent n l = l.
Proof.
  intros H. unfold recent. replace (length l - n)%nat with 0%nat by lia. reflexivity.
Qed.

Lemma recent_app_recent {A} (n : nat) (l : list A) (x : A) :
  (0 < n)%nat -> recent n (recent n l ++ [x]) = recent n (l ++ [x]).
Proof.
  intros Hn.
  destruct (Nat.le_gt_cases (length l) n) as [Hle | Hgt].
  - rewrite (recent_all n l Hle). reflexivity.
  - unfold recent. rewrite !length_app, !length_drop. cbn [length].
    replace (length l - (length l - n) + 1 - n)%nat with 1%nat by lia.
    replace (length l + 1 - n)%nat with (S (length l - n)) by lia.
    rewrite (drop_app_le l [x] (S (length l - n))) by lia.
    rewrite drop_app_le by (rewrite length_drop; lia).
    rewrite drop_drop. f_equal. f_equal. lia.
Qed.

Lemma add_segment_recent (o t : string) (self : ContextManager) :
  0 < _max_length self ->
  (Z.of_nat (length (_history self)) <= _max_length self) ->
  add_segment o t self
  = mkManager (_max_length self)
              (recent (Z.to_nat (_max_length self)) (_history self ++ [mkEntry o t])).
Proof.
  intros Hpos Hlen. unfold add_segment, recent, Py.slice_from. cbv zeta.
  rewrite !length_app. cbn [length].
  destruct (Z.ltb_spec (_max_length self) (Z.of_nat (length (_history self) + 1))).
  - destruct (Z.ltb_spec (- _max_length self) 0); [| lia].
    f_equal. f_equal. lia.
  - f_equal. replace (length (_history self) + 1 - Z.to_nat (_max_length self))%nat
      with 0%nat by lia. reflexivity.
Qed.

Lemma length_recent {A} (n : nat) (l : list A) : (length (recent n l) <= n)%nat.
Proof. unfold recent. rewrite length_drop. lia. Qed.

(** X1.  A manager with a positive capacity whose history fits it keeps,
    after any number of [add_segment] calls, exactly the most recent
    [_max_length] entries of the old history followed by the new
    segments, oldest first; the capacity is unchanged and never
    exceeded. *)
Theorem add_segment_keeps_most_recent (segments : list (string * string))
        (self : ContextManager) :
  0 < _max_length self ->
  Z.of_nat (length (_history self)) <= _max_length self ->
  let after := add_all segments self in
  _max_length after = _max_length self /\
  _history after
  = recent (Z.to_nat (_max_length self)) (_history self ++ entries_of segments) /\
  Z.of_nat (length (_history after)) <= _max_length self.
Proof.
  intros Hpos. revert self Hpos.
  induction segments as [| [o t] segments IH] using rev_ind; intros self Hpos Hlen after;
    subst after.
  - cbn. unfold recent. rewrite app_nil_r.
    replace (length (_history self) - Z.to_nat (_max_length self))%nat with 0%nat by lia.
    cbn. auto.
  - unfold add_all in *. rewrite fold_left_app. cbn [fold_left fst snd].
    destruct (IH self Hpos Hlen) as (Hmax & Hhist & Hbound).
    set (m := fold_left _ segments self) in *.
    rewrite add_segment_recent by lia. cbn [_max_length _history].
    rewrite Hmax, Hhist.
    split; [reflexivity|]. split.
    + rewrite recent_app_recent by lia.
      unfold entries_of. rewrite map_app, app_assoc. reflexivity.
    + pose proof (length_recent (Z.to_nat (_max_length self))
                    (recent (Z.to_nat (_max_length self))
                       (_history self ++ entries_of segments) ++ [mkEntry o t])). lia.
Qed.

Lemma add_segment_keeps_most_recent_witness :
  _history (add_all [("b", "b"); ("c", "c")]%string (mkManager 2 [Examples.entry "a"]))
  = [Examples.entry "b"; Examples.entry "c"].
Proof.
  exact (proj1 (proj2 (add_segment_keeps_most_recent
                         [("b", "b"); ("c", "c")]%string
                         (mkManager 2 [Examples.entry "a"])
                         ltac:(cbn; lia) ltac:(cbn; lia)))).
Defined.

(** X2.  With [_max_length = 0] nothing is ever evicted: the trim of
    [add_segment] reads [self._history[-0:]], the whole list, so the
    history is the old one followed by every segment added. *)
Theorem zero_capacity_never_trims (segments : list (string * string))
        (self : ContextManager) :
  _max_length self = 0 ->
  _history (add_all segments self) = _history self ++ entries_of segments.
Proof.
  intros Hzero.
  assert (H : _max_length (add_all segments self) = 0 /\
              _history (add_all segments self) = _history self ++ entries_of segments);
    [| apply H].
  induction segments as [| [o t] segments IH] using rev_ind.
  - cbn. rewrite app_nil_r. auto.
  - unfold add_all in *. rewrite fold_left_app. cbn [fold_left fst snd].
    destruct IH as [Hmax Hhist]. set (m := fold_left _ segments self) in *.
    unfold add_segment. rewrite Hmax, Hhist. cbv zeta.
    unfold entries_of. rewrite map_app, app_assoc. cbn [map fst snd].
    destruct (0 <? _); cbn [_max_length _history]; [| auto].
    split; [reflexivity|]. unfold Py.slice_from. cbn.
    rewrite Z.min_l by lia. reflexivity.
Qed.

Lemma zero_capacity_never_trims_witness :
  _history (add_all [("a", "a"); ("b", "b")]%string (mkManager 0 []))
  = [Examples.entry "a"; Examples.entry "b"].
Proof.
  exact (zero_capacity_never_trims [("a", "a"); ("b", "b")]%string (mkManager 0 [])
                                   eq_refl).
Defined.

Lemma decode_encode (e : ContextEntry) :
  mkEntry (default ""%string
             ((<["translated"%string := translated e]>
                 (<["original"%string := original e]> (∅ : gmap string string)))
                !! "original"%string))
          (default ""%string
             ((<["translated"%string := translated e]>
                 (<["original"%string := original e]> (∅ : gmap string string)))
                !! "translated"%string))
  = e.
Proof.
  rewrite lookup_insert_ne by discriminate.
  rewrite !lookup_insert_eq. destruct e; reflexivity.
Qed.

(** X3.  [load_from_dict_list(to_dict_list())] gives back the manager
    when its history fits the capacity; loaded into any manager, the
    dictionaries of a history yield its first [_max_length] entries
    (the slice [[:_max_length]]). *)
Theorem dict_list_round_trip (self other : ContextManager) :
  Z.of_nat (length (_history self)) <= _max_length self ->
  load_from_dict_list (to_dict_list self) self = self /\
  _history (load_from_dict_list (to_dict_list self) other)
  = Py.slice_to (_max_length other) (_history self).
Proof.
  intros Hlen.
  assert (Hmap : map (fun item => mkEntry (default ""%string (item !! "original"%string))
                                          (default ""%string (item !! "translated"%string)))
                     (to_dict_list self) = _history self).
  { unfold to_dict_list. rewrite map_map.
    rewrite <- (map_id (_history self)) at 2.
    apply map_ext. intros e. apply decode_encode. }
  unfold load_from_dict_list. rewrite Hmap. split; [| reflexivity].
  unfold Py.slice_to.
  destruct (Z.ltb_spec (_max_length self) 0); [lia|].
  rewrite Z.min_r by lia. rewrite Nat2Z.id, firstn_all.
  destruct self; reflexivity.
Qed.

Lemma dict_list_round_trip_witness :
  let self := mkManager 50 [Examples.entry "a"; Examples.entry "b"] in
  load_from_dict_list (to_dict_list self) self = self.
Proof.
  exact (proj1 (dict_list_round_trip
                  (mkManager 50 [Examples.entry "a"; Examples.entry "b"])
                  (mkManager 50 []) ltac:(cbn; lia))).
Defined.

(** Missing keys read as empty strings, and a capacity of 1 keeps the
    first item only. *)
Example load_from_dict_list_missing_keys :
  _history (load_from_dict_list
              [<["original"%string := "a"%string]> ∅; <["translated"%string := "b"%string]> ∅]
              (mkManager 1 []))
  = [mkEntry "a" ""].
Proof. reflexivity. Qed.
End ContextMore.

Section ContainerMore.
Import Container.

(** X5.  Consecutive failures add up in [fail_uses]; as long as the
    count stays under [max_failures] they leave [blocked_until] as it
    was; and from the failure that reaches [max_failures] on, each
    failure sets [blocked_until] to its own clock value plus
    [block_timeout_sec]. *)
Theorem container_blocks_at_failure_limit (times : list (Q * Q))
        (c : TranslatorContainer) :
  let after := fail_all times c in
  fail_uses after = fail_uses c + Z.of_nat (length times) /\
  (fail_uses c + Z.of_nat (length times) < max_failures c ->
   blocked_until after = blocked_until c) /\
  (forall t1 t2 earlier,
      times = earlier ++ [(t1, t2)] ->
      max_failures c <= fail_uses c + Z.of_nat (length times) ->
      blocked_until after = Some (t2 + block_timeout_sec c)%Q).
Proof.
  cbv zeta.
  assert (Hstatic : forall times c,
             max_failures (fail_all times c) = max_failures c /\
             block_timeout_sec (fail_all times c) = block_timeout_sec c /\
             fail_uses (fail_all times c) = fail_uses c + Z.of_nat (length times)).
  { clear. induction times as [| [t1 t2] times IH]; intros c; cbn [fail_all fold_left length].
    - repeat split; lia.
    - destruct (IH (mark_failure t1 t2 c)) as (H1 & H2 & H3).
      cbn [fst snd]. fold (fail_all times (mark_failure t1 t2 c)).
      rewrite H1, H2, H3.
      unfold mark_failure; cbn.
      destruct (max_failures c <=? fail_uses c + 1); cbn; repeat split; lia. }
  split; [apply Hstatic|]. split.
  - revert c. induction times as [| [t1 t2] times IH]; intros c Hlt; [reflexivity|].
    cbn [fail_all fold_left length fst snd] in *.
    assert (Hstep : mark_failure t1 t2 c
                    = set_last_used_at t1 (set_fail_uses (fail_uses c + 1) c)).
    { unfold mark_failure. cbn.
      destruct (Z.leb_spec (max_failures c) (fail_uses c + 1)); [lia | reflexivity]. }
    unfold fail_all in IH. rewrite IH; rewrite Hstep; cbn; [reflexivity | lia].
  - intros t1 t2 earlier -> Hge.
    unfold fail_all. rewrite fold_left_app. cbn [fold_left fst snd].
    destruct (Hstatic earlier c) as (H1 & H2 & H3). unfold fail_all in *.
    rewrite length_app in Hge. cbn [length] in Hge.
    set (m := fold_left _ earlier c) in *.
    unfold mark_failure. cbn. rewrite H1, H2, H3.
    destruct (Z.leb_spec (max_failures c) (fail_uses c + Z.of_nat (length earlier) + 1));
      [reflexivity | lia].
Qed.
End ContainerMore.

Section BatchMore.
Import Base Service.

Lemma split_batches_within (requests : list TranslationRequest)
      (capabilities : TranslatorCapabilities) :
  supports_batch capabilities = true ->
  Forall (batch_within (Z.max 1 (max_batch_size capabilities))
                       (max_chars_per_request capabilities))
         (_split_into_batches requests capabilities).
Proof.
  intros Hsb. unfold _split_into_batches. rewrite Hsb. cbn [negb].
  replace (Z.max 1 (if max_batch_size capabilities =? 0 then 1
                    else max_batch_size capabilities))
    with (Z.max 1 (max_batch_size capabilities))
    by (destruct (Z.eqb_spec (max_batch_size capabilities) 0); lia).
  set (mb := Z.max 1 _).
  pose proof (split_loop_inv mb (max_chars_per_request capabilities) requests
                ltac:(subst mb; lia) ([], [], 0) []) as H.
  destruct (fold_left _ requests _) as [[bs current] chars].
  destruct H as (_ & _ & Hbs & Hcur).
  { repeat split; [constructor | left; reflexivity]. }
  destruct current as [| r current]; cbn [Py.truthy_list]; [assumption|].
  apply Forall_app. split; [assumption|].
  constructor; [| constructor].
  destruct Hcur as [Hcur | Hcur]; [discriminate | assumption].
Qed.

Lemma nonempty_batches_count {A} (batches : list (list A)) :
  Forall (fun b => b <> []) batches -> (length batches <= length (concat batches))%nat.
Proof.
  induction 1 as [| b bs Hb _ IH]; cbn; [lia|].
  rewrite length_app. destruct b; [contradiction | cbn; lia].
Qed.

Lemma split_not_batching (requests : list TranslationRequest)
      (capabilities : TranslatorCapabilities) :
  supports_batch capabilities = false ->
  _split_into_batches requests capabilities = map (fun req => [req]) requests.
Proof. intros H. unfold _split_into_batches. rewrite H. reflexivity. Qed.

Lemma split_batch_sizes (requests : list TranslationRequest)
      (capabilities : TranslatorCapabilities) :
  1 <= max_batch_size capabilities ->
  Forall (fun batch => Z.of_nat (length batch) <= max_batch_size capabilities)
         (_split_into_batches requests capabilities).
Proof.
  intros Hmb. destruct (supports_batch capabilities) eqn:Hsb.
  - eapply Forall_impl; [apply split_batches_within; assumption|].
    intros b (_ & Hb & _). cbn beta in *. lia.
  - rewrite split_not_batching by assumption.
    apply Forall_fmap, Forall_true. intros r. cbn. lia.
Qed.

(** X6.  [_split_into_batches] never makes more batches than there are
    requests and makes none for no request; an engine that does not
    batch gets one single-request batch per request; and whenever
    [max_batch_size] is at least 1, no batch holds more requests than
    that, batching or not. *)
Theorem batches_never_outnumber_requests (requests : list TranslationRequest)
        (capabilities : TranslatorCapabilities) :
  let batches := _split_into_batches requests capabilities in
  (length batches <= length requests)%nat /\
  (requests = [] -> batches = []) /\
  (supports_batch capabilities = false ->
   length batches = length requests /\
   Forall (fun batch => length batch = 1%nat) batches) /\
  (1 <= max_batch_size capabilities ->
   Forall (fun batch => Z.of_nat (length batch) <= max_batch_size capabilities) batches).
Proof.
  cbv zeta. split; [| split; [| split]].
  - rewrite <- (split_concat requests capabilities) at 2.
    apply nonempty_batches_count.
    destruct (supports_batch capabilities) eqn:Hsb.
    + eapply Forall_impl; [apply split_batches_within; assumption|].
      intros b Hb. apply Hb.
    + rewrite split_not_batching by assumption.
      apply Forall_fmap, Forall_true. intros r. discriminate.
  - intros ->. unfold _split_into_batches. destruct (supports_batch capabilities); reflexivity.
  - intros Hsb. rewrite split_not_batching by assumption. split; [apply length_map|].
    apply Forall_fmap, Forall_true. intros r. reflexivity.
  - apply split_batch_sizes.
Qed.

Lemma packed_snoc mb mc (l : list (list TranslationRequest)) b r :
  packed mb mc (l ++ [b]) ->
  full_for mb mc b (Some r) ->
  packed mb mc (l ++ [b] ++ [[r]]).
Proof.
  induction l as [| x l IH]; intros Hp Hf; cbn in *.
  - auto.
  - destruct Hp as [Hx Hp]. split; [| apply IH; assumption].
    destruct l; cbn in *; assumption.
Qed.

Lemma packed_grow mb mc (l : list (list TranslationRequest)) b x :
  b <> [] ->
  packed mb mc (l ++ [b]) ->
  packed mb mc (l ++ [b ++ x]).
Proof.
  intros Hb. induction l as [| y l IH]; intros Hp; cbn in *.
  - auto.
  - destruct Hp as [Hy Hp]. split; [| apply IH; assumption].
    destruct l; cbn in *; [| assumption].
    destruct b; [contradiction | exact Hy].
Qed.

Lemma split_step_packed mb mc st req :
  packed_inv mb mc st -> packed_inv mb mc (split_step mb mc st req).
Proof.
  destruct st as [[batches current] chars]. unfold split_step, packed_inv.
  intros [(-> & -> & ->) | (Hne & Hchars & Hp)].
  - cbn [Py.truthy_list andb app]. right. split; [discriminate|].
    split; [rewrite batch_chars_single; lia | cbn; auto].
  - destruct current as [| r0 current]; [contradiction|].
    cbn [Py.truthy_list andb].
    destruct (negb (Z.of_nat (length (r0 :: current)) <? mb)
              || negb match mc with
                      | Some m => chars + Py.len (text req) <=? m
                      | None => true
                      end) eqn:Hclose.
    + right. split; [discriminate|]. split; [cbn [app]; rewrite batch_chars_single; lia|].
      cbn [app]. rewrite <- app_assoc. apply packed_snoc; [assumption|].
      apply orb_true_iff in Hclose as [Hc | Hc]; apply negb_true_iff in Hc.
      * left. apply Z.ltb_ge in Hc. exact Hc.
      * right. destruct mc as [m|]; [| discriminate].
        exists m. split; [reflexivity|]. apply Z.leb_gt in Hc. lia.
    + right. split; [discriminate|].
      split; [rewrite batch_chars_app, batch_chars_single; lia|].
      apply packed_grow; [discriminate | assumption].
Qed.

(** X7.  The batches of a batching engine are packed greedily: every
    batch but the last either holds [max(1, max_batch_size)] requests
    or would exceed [max_chars_per_request] with the first request of
    the batch that follows it. *)
Theorem batches_are_packed_greedily (requests : list TranslationRequest)
        (capabilities : TranslatorCapabilities) :
  supports_batch capabilities = true ->
  packed (Z.max 1 (max_batch_size capabilities)) (max_chars_per_request capabilities)
         (_split_into_batches requests capabilities).
Proof.
  intros Hsb. unfold _split_into_batches. rewrite Hsb. cbn [negb].
  replace (Z.max 1 (if max_batch_size capabilities =? 0 then 1
                    else max_batch_size capabilities))
    with (Z.max 1 (max_batch_size capabilities))
    by (destruct (Z.eqb_spec (max_batch_size capabilities) 0); lia).
  set (mb := Z.max 1 _). set (mc := max_chars_per_request capabilities).
  assert (H : forall st, packed_inv mb mc st ->
                         packed_inv mb mc (fold_left (split_step mb mc) requests st)).
  { induction requests as [| req requests IH]; intros st Hst; cbn; [assumption|].
    apply IH. apply split_step_packed. assumption. }
  specialize (H ([], [], 0) ltac:(left; auto)).
  destruct (fold_left _ requests _) as [[bs current] chars].
  destruct H as [(-> & -> & _) | (Hne & _ & Hp)]; [exact I|].
  destruct current; [contradiction | exact Hp].
Qed.

Lemma batches_are_packed_greedily_witness :
  packed (Z.max 1 2) (Some 10)
         (_split_into_batches
            [Examples.request "aaaa"; Examples.request "bbbb"; Examples.request "cccc"]
            (Examples.caps true 2 (Some 10))).
Proof.
  exact (batches_are_packed_greedily
           [Examples.request "aaaa"; Examples.request "bbbb"; Examples.request "cccc"]
           (Examples.caps true 2 (Some 10)) eq_refl).
Defined.
End BatchMore.

Section RegistryMore.
Import Base Service Registry.

(** X8.  Normalising an engine id twice is normalising it once: the
    canonical ids are not aliases themselves. *)
Theorem normalize_translator_id_idempotent (engine_id : string) :
  normalize_translator_id (normalize_translator_id engine_id)
  = normalize_translator_id engine_id.
Proof.
  unfold normalize_translator_id.
  destruct (String.eqb engine_id "yandex") eqn:E1; [reflexivity|].
  destruct (String.eqb engine_id "openai") eqn:E2; [reflexivity|].
  destruct (String.eqb engine_id "marianmt") eqn:E3; [reflexivity|].
  rewrite E1, E2, E3. reflexivity.
Qed.

(** X9.  For every engine id, registered or not, the capabilities
    [get_translator_capabilities] returns have [max_batch_size >= 1]
    (exactly 1 when the engine does not batch), a positive
    [context_window] and a positive [attempt_delay_ms]; so no batch
    split for them holds more than [max_batch_size] requests. *)
Theorem registered_capabilities_well_formed (engine_id : string) :
  let caps := get_translator_capabilities engine_id in
  1 <= max_batch_size caps /\
  (supports_batch caps = false -> max_batch_size caps = 1) /\
  0 < context_window caps /\
  0 < attempt_delay_ms caps /\
  (forall requests,
      Forall (fun batch => Z.of_nat (length batch) <= max_batch_size caps)
             (_split_into_batches requests caps)).
Proof.
  cbv zeta.
  assert (Hfacts : let caps := get_translator_capabilities engine_id in
                   1 <= max_batch_size caps /\
                   (supports_batch caps = false -> max_batch_size caps = 1) /\
                   0 < context_window caps /\ 0 < attempt_delay_ms caps).
  { unfold get_translator_capabilities.
    generalize (normalize_translator_id engine_id) as n. intros n.
    cbn [dict_get _CAPABILITIES].
    repeat match goal with
           | |- context [String.eqb n ?k] => destruct (String.eqb n k)
           end; cbn; repeat split; try lia; discriminate. }
  cbv zeta in Hfacts. destruct Hfacts as (H1 & H2 & H3 & H4).
  repeat split; try assumption.
  intros requests.
  apply split_batch_sizes. assumption.
Qed.
End RegistryMore.

Section BackoffMore.
Import Limits RateLimiter.

Lemma get_backoff_state_run (engine_id : string) (s : State) :
  result (get_backoff_state engine_id s) = backoff_of engine_id s /\
  (forall e, backoff_of e (final (get_backoff_state engine_id s)) = backoff_of e s) /\
  next_reading (final (get_backoff_state engine_id s)) = next_reading s.
Proof.
  unfold get_backoff_state, backoff_of, result, final, next_reading.
  destruct (backoffs (world s) !! engine_id) as [b|] eqn:E; cbn.
  - auto.
  - split; [reflexivity|]. split; [| reflexivity].
    intros e. destruct (decide (engine_id = e)) as [<- | Hne].
    + rewrite lookup_insert_eq, E. reflexivity.
    + rewrite lookup_insert_ne by assumption. reflexivity.
Qed.

Lemma activate_slow_mode_run (engine_id : string) (reason : option string) (s : State) :
  backoff_of engine_id (final (activate_slow_mode engine_id reason s))
  = slow_down (next_reading s) (backoff_of engine_id s) /\
  (forall e, e <> engine_id ->
             backoff_of e (final (activate_slow_mode engine_id reason s)) = backoff_of e s).
Proof.
  unfold activate_slow_mode, get_backoff_state, put_backoff_state, bind, monotonic,
    modify, ret, backoff_of, final, next_reading.
  destruct (backoffs (world s) !! engine_id) as [b|] eqn:E; cbn.
  - rewrite lookup_insert_eq. split; [reflexivity|].
    intros e He. rewrite lookup_insert_ne by congruence. reflexivity.
  - rewrite lookup_insert_eq. split; [reflexivity|].
    intros e He. rewrite !lookup_insert_ne by congruence. reflexivity.
Qed.

Lemma consume_slow_mode_notice_run (engine_id : string) (s : State) :
  let b := backoff_of engine_id s in
  result (consume_slow_mode_notice engine_id s) = slow_mode b && negb (notified b) /\
  backoff_of engine_id (final (consume_slow_mode_notice engine_id s))
  = (if slow_mode b && negb (notified b)
     then mkBackoff (penalty_delay_sec b) (last_error_ts b) (slow_mode b) (slow_since b) true
     else b).
Proof.
  cbv zeta. unfold consume_slow_mode_notice.
  rewrite result_bind, final_bind.
  destruct (get_backoff_state_run engine_id s) as (Hres & Hfin & _).
  rewrite Hres. destruct (slow_mode _ && negb _) eqn:E.
  - rewrite result_bind, final_bind. cbn [ret result final fst snd].
    split; [reflexivity|].
    unfold put_backoff_state, modify, backoff_of; cbn.
    rewrite lookup_insert_eq. reflexivity.
  - cbn [ret result final fst snd]. split; [reflexivity|]. apply Hfin.
Qed.

(** X10.  The notice of a slow-mode activation is delivered once: after
    [activate_slow_mode] on an engine that was not slow,
    [consume_slow_mode_notice] is true, a second call is false, and
    activating again while still slow does not arm it again. *)
Theorem slow_mode_notice_once (engine_id : string) (reason again : option string)
        (s : State) :
  slow_mode (backoff_of engine_id s) = false ->
  let activated := final (activate_slow_mode engine_id reason s) in
  let consumed := final (consume_slow_mode_notice engine_id activated) in
  let reactivated := final (activate_slow_mode engine_id again consumed) in
  result (consume_slow_mode_notice engine_id activated) = true /\
  result (consume_slow_mode_notice engine_id consumed) = false /\
  result (consume_slow_mode_notice engine_id reactivated) = false /\
  slow_mode (backoff_of engine_id reactivated) = true.
Proof.
  intros Hfresh. cbv zeta.
  pose proof (activate_slow_mode_run engine_id reason s) as [Hact _].
  set (s1 := final (activate_slow_mode engine_id reason s)) in *.
  pose proof (consume_slow_mode_notice_run engine_id s1) as [Hr1 Hs1]. cbv zeta in Hr1, Hs1.
  set (s2 := final (consume_slow_mode_notice engine_id s1)) in *.
  pose proof (consume_slow_mode_notice_run engine_id s2) as [Hr2 _]. cbv zeta in Hr2.
  pose proof (activate_slow_mode_run engine_id again s2) as [Hact2 _].
  set (s3 := final (activate_slow_mode engine_id again s2)) in *.
  pose proof (consume_slow_mode_notice_run engine_id s3) as [Hr3 _]. cbv zeta in Hr3.
  rewrite Hact in Hr1, Hs1. unfold slow_down in Hr1, Hs1. cbn in Hr1, Hs1.
  rewrite Hfresh in Hr1, Hs1. cbn in Hr1, Hs1.
  split; [exact Hr1|].
  rewrite Hs1 in Hr2. cbn in Hr2. split; [exact Hr2|].
  rewrite Hact2, Hs1 in Hr3. unfold slow_down in Hr3. cbn in Hr3.
  split; [exact Hr3|].
  rewrite Hact2. reflexivity.
Qed.

Lemma slow_mode_notice_once_witness :
  let activated := final (activate_slow_mode "deepl" None (Examples.state [])) in
  let consumed := final (consume_slow_mode_notice "deepl" activated) in
  result (consume_slow_mode_notice "deepl" activated) = true /\
  result (consume_slow_mode_notice "deepl" consumed) = false.
Proof.
  destruct (slow_mode_notice_once "deepl" None None (Examples.state []) eq_refl)
    as (H1 & H2 & _).
  split; [exact H1 | exact H2].
Defined.

(** X11.  Activating slow mode again while it is on only moves the time
    of the last error: penalty (already within 2..30), start of the
    slow period and notice flag stay as the first activation left
    them.  (The first activation is at a non-zero clock value, so that
    [slow_since] is recorded.) *)
Theorem activate_slow_mode_again (t1 t2 : Q) (b : BackoffState) :
  ~ (t1 == 0)%Q ->
  slow_down t2 (slow_down t1 b)
  = mkBackoff (penalty_delay_sec (slow_down t1 b)) t2 true
              (slow_since (slow_down t1 b)) (notified (slow_down t1 b)).
Proof.
  intros Ht1. unfold slow_down. cbn.
  assert (Hpen : forall p, Py.min (Py.max (Py.min (Py.max p 2) 30) 2) 30
                           = Py.min (Py.max p 2) 30).
  { intros p. unfold Py.min, Py.max.
    destruct (Py.Qltb p 2) eqn:E1.
    - destruct (Py.Qltb 30 2) eqn:E2; [apply Qltb_lt in E2; lra|].
      rewrite (proj2 (Qltb_ge 2 2)) by lra. rewrite E2. reflexivity.
    - destruct (Py.Qltb 30 p) eqn:E2.
      + rewrite (proj2 (Qltb_ge 30 2)) by lra. rewrite (proj2 (Qltb_ge 30 30)) by lra.
        reflexivity.
      + rewrite E1, E2. reflexivity. }
  rewrite Hpen. f_equal.
  unfold Py.truthy_float.
  destruct (Qeq_bool (slow_since b) 0) eqn:E; cbn.
  - destruct (Qeq_bool t1 0) eqn:E1; [| reflexivity].
    apply Qeq_bool_iff in E1. contradiction.
  - rewrite E. reflexivity.
Qed.

Lemma activate_slow_mode_again_witness :
  slow_down 7 (slow_down 5 fresh) = mkBackoff 2 7 true 5 false.
Proof.
  exact (activate_slow_mode_again 5 7 fresh
           ltac:(intros H; vm_compute in H; discriminate H)).
Defined.


End BackoffMore.

Section WaitMore.
Import Limits RateLimiter.

Lemma window_step_spec (now : Q) (self : RateLimiter) (s : State) :
  let run := window_step now self s in
  Forall positive_sleep (events run) /\
  cfg (snd (result run)) = cfg self /\
  _last_call_ts (snd (result run)) = _last_call_ts self /\
  (0 < max_calls_per_min (cfg self) -> 0 <= _window_calls self ->
   0 <= _window_calls (snd (result run)) < max_calls_per_min (cfg self)) /\
  (max_calls_per_min (cfg self) <= 0 -> snd (result run) = self).
Proof.
  cbv zeta. unfold window_step.
  destruct (Z.ltb_spec 0 (max_calls_per_min (cfg self))) as [Hpos | Hnpos].
  - destruct (Qle_bool (_window_start_ts self) 0 || Qle_bool 60 (now - _window_start_ts self)).
    + cbn. repeat split; try constructor; lia.
    + destruct (Z.leb_spec (max_calls_per_min (cfg self)) (_window_calls self)) as [Hfull | Hroom].
      * rewrite events_bind, result_bind.
        destruct (Py.Qltb 0 (Py.max 0 (60 - (now - _window_start_ts self)))) eqn:Hw.
        -- rewrite !events_bind, !result_bind. cbn.
           repeat split; try lia.
           constructor; [| constructor]. eexists. split; [reflexivity|].
           apply Qltb_lt. exact Hw.
        -- rewrite !events_bind, !result_bind. cbn. repeat split; try constructor; lia.
      * cbn. repeat split; try constructor; lia.
  - cbn. repeat split; try constructor; lia.
Qed.

(** X13.  [wait_or_raise] raises exactly when the text is longer than
    [max_chars_per_request], whatever the backoff state: it then raises
    [ValueError] without reading the clock, sleeping or changing
    anything; for any other text it returns normally and keeps the
    configuration of the limiter. *)
Theorem wait_or_raise_raises_iff_too_long
        (self : RateLimiter) (text_length : Z) (backoff : option BackoffState)
        (s : State) :
  let run := wait_or_raise self text_length backoff s in
  (max_chars_per_request (cfg self) < text_length ->
   run = ((Raise (ValueError "Text too long for limited mode"), self, backoff, s), [])) /\
  (text_length <= max_chars_per_request (cfg self) ->
   fst (fst (result run)) = Return tt /\ cfg (snd (fst (result run))) = cfg self).
Proof.
  cbv zeta. unfold wait_or_raise.
  destruct (Z.ltb_spec (max_chars_per_request (cfg self)) text_length) as [Hlong | Hok].
  - split; [intros _; reflexivity | lia].
  - split; [lia|]. intros _.
    rewrite result_bind. cbn [monotonic result final fst snd].
    match goal with |- context [if negb ?b then _ else _] => destruct (negb b) end.
    + cbn. auto.
    + rewrite !result_bind. cbn [ret result fst snd cfg].
      split; [reflexivity|]. apply window_step_spec.
Qed.

(** X14.  Every pause of [wait_or_raise] is a [time.sleep] of strictly
    positive length, and outside slow mode (no backoff state, or one
    that is not slow) there is no pause at all. *)
Theorem wait_or_raise_sleeps_positive
        (self : RateLimiter) (text_length : Z) (backoff : option BackoffState)
        (s : State) :
  Forall positive_sleep (events (wait_or_raise self text_length backoff s)) /\
  ((match backoff with Some b => slow_mode b | None => false end) = false ->
   events (wait_or_raise self text_length backoff s) = []).
Proof.
  unfold wait_or_raise.
  destruct (max_chars_per_request (cfg self) <? text_length); [split; [constructor | reflexivity]|].
  rewrite events_bind. cbn [monotonic events result final fst snd app].
  set (now := clock (world s) (ticks (world s))).
  set (s1 := set_world _ s).
  destruct (expired now backoff) eqn:Hexp.
  - cbn. split; [constructor | reflexivity].
  - destruct (match backoff with Some b => slow_mode b | None => false end) eqn:Hslow;
      cbn [negb]; [| split; [constructor | reflexivity]].
    split; [| discriminate].
    rewrite events_bind. apply Forall_app. split; [apply window_step_spec|].
    rewrite events_bind. apply Forall_app. split.
    { match goal with |- context [if ?b then _ else _] => destruct b eqn:Hb end;
        [| constructor].
      constructor; [| constructor]. eexists. split; [reflexivity|].
      apply Qltb_lt in Hb. lra. }
    rewrite events_bind. apply Forall_app. split.
    { destruct backoff as [b|]; [| constructor].
      destruct (Py.Qltb 0 (penalty_delay_sec b)) eqn:Hb; [| constructor].
      constructor; [| constructor]. eexists. split; [reflexivity|].
      apply Qltb_lt. exact Hb. }
    rewrite events_bind. cbn. constructor.
Qed.

(** X15.  In slow mode with a per-minute budget, a call of
    [wait_or_raise] leaves the window counter between 1 and
    [max_calls_per_min]: the counter is reset when the window is over
    or full, and incremented otherwise. *)
Theorem wait_or_raise_window_budget
        (self : RateLimiter) (text_length : Z) (b : BackoffState) (s : State) :
  text_length <= max_chars_per_request (cfg self) ->
  slow_mode b = true ->
  expired (next_reading s) (Some b) = false ->
  0 < max_calls_per_min (cfg self) ->
  0 <= _window_calls self ->
  let limiter := snd (fst (result (wait_or_raise self text_length (Some b) s))) in
  1 <= _window_calls limiter <= max_calls_per_min (cfg self).
Proof.
  intros Hlen Hslow Hexp Hmax Hcalls. cbv zeta. unfold wait_or_raise.
  destruct (Z.ltb_spec (max_chars_per_request (cfg self)) text_length); [lia|].
  rewrite result_bind. cbn [monotonic result final fst snd].
  unfold next_reading in Hexp. rewrite Hexp, Hslow. cbn [negb].
  rewrite !result_bind. cbn [ret result fst snd _window_calls].
  match goal with
  | |- context [window_step ?n self ?st] =>
      pose proof (window_step_spec n self st) as (_ & _ & _ & Hw & _)
  end.
  cbv zeta in Hw. specialize (Hw Hmax Hcalls). lia.
Qed.

Lemma wait_or_raise_window_budget_witness :
  let limiter :=
    snd (fst (result (wait_or_raise (mkLimiter (mkConfig 4 10 800) 0 5 10) 5
                        (Some (mkBackoff 2 1 true 1 true))
                        (mkState (mkWorld (fun _ => 10%Q) 0 0 ∅) []
                                 (Context.mkManager 50 []))))) in
  1 <= _window_calls limiter <= 10.
Proof.
  exact (wait_or_raise_window_budget
           (mkLimiter (mkConfig 4 10 800) 0 5 10) 5 (mkBackoff 2 1 true 1 true)
           (mkState (mkWorld (fun _ => 10%Q) 0 0 ∅) [] (Context.mkManager 50 []))
           ltac:(cbn; lia) eq_refl eq_refl ltac:(cbn; lia) ltac:(cbn; lia)).
Defined.
End WaitMore.

Section RetryMore.
Import Service.

(** X16.  Whatever the wrapped call does, [_run_with_rate_limit_retry]
    never lets a [LimitedModeError] out: it returns a result or raises
    some other exception. *)
Theorem rate_limit_retry_absorbs_limited_mode {T} (self : TranslationService)
        (engine_id : string) (fn : M (Outcome T)) (s : State) :
  match result (_run_with_rate_limit_retry self engine_id fn s) with
  | Raise (LimitedModeError _ _) => False
  | _ => True
  end.
Proof.
  unfold _run_with_rate_limit_retry. rewrite result_bind.
  destruct (result (fn s)) as [v | [sc1 msg1 | m c | m | m]]; try exact I.
  rewrite !result_bind.
  match goal with
  | |- context [fn ?s2] => destruct (result (fn s2)) as [v | [sc2 msg2 | m c | m | m]]
  end; exact I.
Qed.
End RetryMore.

Section SelectionMore.
Import Container Base Translator.

Lemma preserves_ret {A B} (f : State -> B) (a : A) : preserves f (ret a).
Proof. intros s. reflexivity. Qed.

Lemma preserves_bind {A B C} (f : State -> C) (m : M A) (k : A -> M B) :
  preserves f m -> (forall a, preserves f (k a)) -> preserves f (bind m k).
Proof.
  intros Hm Hk s. rewrite final_bind, Hk, Hm. reflexivity.
Qed.

Lemma preserves_gets {A B} (f : State -> B) (g : State -> A) : preserves f (gets g).
Proof. intros s. reflexivity. Qed.

Ltac preserves_step :=
  repeat first
    [ apply preserves_ret | apply preserves_gets
    | apply preserves_bind; [| intros ?]
    | match goal with
      | |- preserves _ (match ?x with _ => _ end) => destruct x
      | |- preserves _ (if ?x then _ else _) => destruct x
      end ].

Lemma is_blocked_m_keeps_containers i : preserves containers (is_blocked_m i).
Proof. unfold is_blocked_m. preserves_step. intros s. reflexivity. Qed.

Lemma is_blocked_m_keeps_clock i : preserves (fun s => clock (world s)) (is_blocked_m i).
Proof. unfold is_blocked_m. preserves_step. intros s. reflexivity. Qed.

Lemma unblocked_keeps_containers l : preserves containers (unblocked l).
Proof.
  induction l as [| i l IH]; cbn [unblocked]; [apply preserves_ret|].
  apply preserves_bind; [apply is_blocked_m_keeps_containers | intros b].
  apply preserves_bind; [exact IH | intros keep; apply preserves_ret].
Qed.

Lemma unblocked_keeps_clock l : preserves (fun s => clock (world s)) (unblocked l).
Proof.
  induction l as [| i l IH]; cbn [unblocked]; [apply preserves_ret|].
  apply preserves_bind; [apply is_blocked_m_keeps_clock | intros b].
  apply preserves_bind; [exact IH | intros keep; apply preserves_ret].
Qed.

(** What [unblocked] keeps and what it drops. *)
Lemma unblocked_spec (l : list nat) :
  forall s x,
    (In x (result (unblocked l s)) -> In x l) /\
    (In x l -> forall c, containers s !! x = Some c -> blocked_until c = None ->
               In x (result (unblocked l s))) /\
    (In x (result (unblocked l s)) ->
     forall c b, containers s !! x = Some c -> blocked_until c = Some b ->
                 exists k, (b <= clock (world s) k)%Q).
Proof.
  induction l as [| i l IH]; intros s x; cbn [unblocked].
  - cbn. repeat split; try contradiction.
  - rewrite result_bind, result_bind. cbn [ret result fst snd].
    set (s1 := final (is_blocked_m i s)).
    assert (Hcs : containers s1 = containers s) by apply is_blocked_m_keeps_containers.
    assert (Hclk : clock (world s1) = clock (world s)) by apply is_blocked_m_keeps_clock.
    destruct (IH s1 x) as (H1 & H2 & H3). rewrite Hcs, Hclk in *.
    assert (Hi : result (is_blocked_m i s) = false ->
                 forall c b, containers s !! i = Some c -> blocked_until c = Some b ->
                             exists k, (b <= clock (world s) k)%Q).
    { unfold is_blocked_m. rewrite result_bind. cbn [gets result final fst snd].
      intros Hres c b Hc Hb. rewrite Hc, Hb in Hres.
      rewrite result_bind in Hres. cbn in Hres.
      unfold is_blocked in Hres. rewrite Hb in Hres.
      apply Qltb_ge in Hres. eauto. }
    assert (Hnone : forall c, containers s !! i = Some c -> blocked_until c = None ->
                              result (is_blocked_m i s) = false).
    { intros c Hc Hb. unfold is_blocked_m. rewrite result_bind.
      cbn [gets result final fst snd]. rewrite Hc, Hb. reflexivity. }
    destruct (result (is_blocked_m i s)) eqn:Hblk; cbn [In].
    + split; [intros Hin; right; auto|]. split; [| exact H3].
      intros [Heq | Hin] c Hc Hb; [subst x | eauto].
      discriminate (Hnone c Hc Hb).
    + split; [intros [Heq | Hin]; [left; exact Heq | right; auto]|]. split.
      * intros [Heq | Hin] c Hc Hb; [left; exact Heq | right; eauto].
      * intros [Heq | Hin] c b Hc Hb; [subst x; eapply Hi; eauto | eauto].
Qed.

Lemma key_lt_asym a b : key_lt a b = true -> key_lt b a = false.
Proof.
  unfold key_lt. destruct a as [[] ta], b as [[] tb]; cbn; try discriminate; try reflexivity;
    intros H; apply Qltb_lt in H; apply Qltb_ge; lra.
Qed.

Lemma key_lt_neg_trans a b c :
  key_lt a c = true -> key_lt a b = true \/ key_lt b c = true.
Proof.
  unfold key_lt. destruct a as [[] ta], b as [[] tb], c as [[] tc]; cbn;
    try discriminate; auto;
    intros H; apply Qltb_lt in H;
    destruct (Py.Qltb ta tb) eqn:E; auto; right;
    apply Qltb_ge in E; apply Qltb_lt; lra.
Qed.

(** The head of the sorted list is a least element. *)
Lemma sorted_head_least key (l : list nat) (h : nat) (t : list nat) :
  sorted key l = h :: t ->
  In h l /\ forall x, In x l -> key_lt (key x) (key h) = false.
Proof.
  revert h t. induction l as [| x l IH]; intros h t; cbn; [discriminate|].
  destruct (foldr (insert_by key) [] l) as [| y l'] eqn:E; cbn.
  - intros [= <- <-]. destruct l as [| z l];
      [| exfalso; apply (sorted_nonempty key (z :: l)); [discriminate | exact E]].
    split; [left; reflexivity|]. intros x' [<- | []].
    destruct (key_lt (key x) (key x)) eqn:Hk; [| reflexivity].
    pose proof (key_lt_asym _ _ Hk). congruence.
  - destruct (IH y l' E) as [Hy Hleast].
    destruct (key_lt (key y) (key x)) eqn:Hyx.
    + intros [= <- _]. split; [right; exact Hy|].
      intros z [<- | Hz]; [apply key_lt_asym; exact Hyx | auto].
    + intros [= <- _]. split; [left; reflexivity|].
      intros z [<- | Hz].
      * destruct (key_lt (key x) (key x)) eqn:Hk; [| reflexivity].
        pose proof (key_lt_asym _ _ Hk). congruence.
      * destruct (key_lt (key z) (key x)) eqn:Hzx; [| reflexivity].
        destruct (key_lt_neg_trans _ (key y) _ Hzx) as [H | H].
        -- rewrite (Hleast z Hz) in H. discriminate.
        -- congruence.
Qed.

(** The selection without restore, in terms of the unblocked containers. *)
Lemma get_container_sorted_head (last_used : option nat) (s : State) :
  let avail := result (unblocked (seq 0 (length (containers s))) s) in
  result (_get_container false last_used s)
  = head (sorted (sort_key (containers s) last_used) avail).
Proof.
  cbv zeta. unfold _get_container.
  rewrite !result_bind. cbn [gets result final fst snd].
  rewrite andb_false_r. cbn [ret result final fst snd].
  pose proof (unblocked_keeps_containers (seq 0 (length (containers s))) s) as Hcs.
  set (s1 := final (unblocked _ s)) in *.
  destruct (result (unblocked _ s)) as [| a av] eqn:E; cbn [Py.truthy_list negb].
  - reflexivity.
  - rewrite result_bind. cbn [gets result final fst snd]. rewrite Hcs.
    destruct (sorted _ (a :: av)) as [| ch rest]; [reflexivity|].
    rewrite !result_bind. reflexivity.
Qed.

Lemma get_container_some_available (prefer_primary : bool) (last_used : option nat)
      (s : State) :
  result (unblocked (seq 0 (length (containers s))) s) <> [] ->
  result (_get_container prefer_primary last_used s)
  = result (_get_container false last_used s).
Proof.
  intros Hne. unfold _get_container.
  rewrite !result_bind. cbn [gets result final fst snd].
  destruct (result (unblocked _ s)) as [| a av]; [contradiction|].
  cbn [Py.truthy_list negb andb]. reflexivity.
Qed.

(** X17.  When a container other than the one just used is free
    ([blocked_until] not set), [_get_container] does not select the
    one just used, and the container it selects has been idle at least
    as long as that free one ([last_used_at] not later). *)
Theorem selection_avoids_last_used_and_prefers_idle
        (prefer_primary : bool) (last_used : option nat) (s : State)
        (d x : nat) (cx : TranslatorContainer) :
  result (_get_container prefer_primary last_used s) = Some d ->
  containers s !! x = Some cx ->
  blocked_until cx = None ->
  last_used <> Some x ->
  last_used <> Some d /\
  exists cd, containers s !! d = Some cd /\ (last_used_at cd <= last_used_at cx)%Q.
Proof.
  intros Hsel Hx Hfree Hlu.
  assert (Hin : In x (result (unblocked (seq 0 (length (containers s))) s))).
  { eapply (proj1 (proj2 (unblocked_spec _ s x))); eauto.
    apply in_seq. apply lookup_lt_Some in Hx. lia. }
  rewrite get_container_some_available in Hsel by (intros E; rewrite E in Hin; exact Hin).
  rewrite get_container_sorted_head in Hsel. cbv zeta in Hsel.
  destruct (sorted _ _) as [| h t] eqn:E; [discriminate|].
  injection Hsel as ->.
  destruct (sorted_head_least _ _ _ _ E) as [Hd Hleast].
  specialize (Hleast x Hin).
  apply (proj1 (unblocked_spec _ s d)) in Hd. apply in_seq in Hd.
  destruct (lookup_lt_is_Some_2 (containers s) d ltac:(lia)) as [cd Hcd].
  unfold key_lt, sort_key in Hleast. cbn [fst snd] in Hleast. rewrite Hx, Hcd in Hleast.
  assert (Hxf : match last_used with Some j => Nat.eqb x j | None => false end = false).
  { destruct last_used as [j|]; [| reflexivity].
    apply Nat.eqb_neq. congruence. }
  rewrite Hxf in Hleast.
  destruct (match last_used with Some j => Nat.eqb d j | None => false end) eqn:Hdf;
    cbn in Hleast; [discriminate|].
  split.
  - destruct last_used as [j|]; [| discriminate].
    apply Nat.eqb_neq in Hdf. congruence.
  - exists cd. split; [exact Hcd|]. apply Qltb_ge in Hleast. exact Hleast.
Qed.

Lemma selection_avoids_last_used_and_prefers_idle_witness :
  Some 1%nat <> Some 0%nat /\
  exists cd,
    containers (Examples.state [Examples.container true 3; Examples.container false 3])
    !! 0%nat = Some cd /\
    (last_used_at cd <= last_used_at (Examples.container true 3))%Q.
Proof.
  exact (selection_avoids_last_used_and_prefers_idle
           false (Some 1%nat)
           (Examples.state [Examples.container true 3; Examples.container false 3])
           0 0 (Examples.container true 3)
           eq_refl eq_refl eq_refl ltac:(discriminate)).
Defined.

(** X18.  The selection that does not restore ([prefer_primary =
    False]) never returns a container whose block lasts beyond every
    value the clock shows. *)
Theorem blocked_container_never_selected
        (last_used : option nat) (s : State) (d : nat) (c : TranslatorContainer) (b : Q) :
  containers s !! d = Some c ->
  blocked_until c = Some b ->
  (forall k, (clock (world s) k < b)%Q) ->
  result (_get_container false last_used s) <> Some d.
Proof.
  intros Hc Hb Hclock Hsel.
  rewrite get_container_sorted_head in Hsel. cbv zeta in Hsel.
  destruct (sorted _ _) as [| h t] eqn:E; [discriminate|].
  injection Hsel as ->.
  destruct (sorted_head_least _ _ _ _ E) as [Hd _].
  destruct (proj2 (proj2 (unblocked_spec _ s d)) Hd c b Hc Hb) as [k Hk].
  specialize (Hclock k). lra.
Qed.

Lemma blocked_container_never_selected_witness :
  result (_get_container false None
            (mkState (mkWorld (fun _ => 0%Q) 0 0 ∅) [Examples.blocked_container]
                     (Context.mkManager 50 [])))
  <> Some 0%nat.
Proof.
  exact (blocked_container_never_selected
           None
           (mkState (mkWorld (fun _ => 0%Q) 0 0 ∅) [Examples.blocked_container]
                    (Context.mkManager 50 []))
           0 Examples.blocked_container 100 eq_refl eq_refl
           ltac:(intros k; reflexivity)).
Defined.

Lemma get_container_in_range (prefer_primary : bool) (last_used : option nat)
      (s : State) (d : nat) :
  result (_get_container prefer_primary last_used s) = Some d ->
  (d < length (containers s))%nat.
Proof.
  destruct (result (unblocked (seq 0 (length (containers s))) s)) as [| a av] eqn:Hav.
  - destruct prefer_primary.
    + unfold _get_container. rewrite !result_bind. cbn [gets result final fst snd].
      rewrite Hav. cbn [Py.truthy_list negb andb].
      pose proof (unblocked_keeps_containers (seq 0 (length (containers s))) s) as Hcs.
      set (s1 := final (unblocked _ s)) in *.
      rewrite result_bind, final_bind, primary_container_run.
      cbn [result final fst snd]. rewrite Hcs.
      unfold primary_index.
      destruct (first_primary (containers s) 0) as [p|] eqn:Hp.
      * apply first_primary_lookup in Hp as [_ [c Hc]]. rewrite Nat.sub_0_r in Hc.
        cbn. intros [= <-]. apply lookup_lt_Some in Hc. exact Hc.
      * destruct (containers s) as [| c0 cs] eqn:Hcs0.
        -- cbn. discriminate.
        -- cbn. intros [= <-]. lia.
    + rewrite get_container_sorted_head. cbv zeta. rewrite Hav. cbn. discriminate.
  - rewrite get_container_some_available by (rewrite Hav; discriminate).
    rewrite get_container_sorted_head. cbv zeta.
    destruct (sorted _ _) as [| h t] eqn:E; [discriminate|].
    intros [= <-]. destruct (sorted_head_least _ _ _ _ E) as [Hd _].
    apply (proj1 (unblocked_spec _ s h)) in Hd. apply in_seq in Hd. lia.
Qed.
End SelectionMore.

Section FailoverMore.
Import Container Base Translator.

Lemma mark_success_m_containers (c : nat) (s : State) :
  containers (final (mark_success_m c s))
  = alter (mark_success (next_reading s)) c (containers s).
Proof. reflexivity. Qed.

Lemma pause_keeps_containers self s :
  containers (final ((if 0 <? attempt_delay_ms (capabilities self)
                      then sleep (inject_Z (attempt_delay_ms (capabilities self)) / 1000)
                      else ret tt) s)) = containers s.
Proof. destruct (0 <? _); reflexivity. Qed.

Lemma pause_call_failed self s :
  Forall call_failed
    (events ((if 0 <? attempt_delay_ms (capabilities self)
              then sleep (inject_Z (attempt_delay_ms (capabilities self)) / 1000)
              else ret tt) s)).
Proof. destruct (0 <? _); repeat constructor. Qed.

(** A loop that returns a result ends with the successful call, after
    failed ones only, and leaves the container of that call reset. *)
Lemma loop_success self request left :
  forall container last_error s res,
    (forall c, container = Some c -> (c < length (containers s))%nat) ->
    let run := failover_loop self request left container last_error s in
    result run = Return res ->
    exists before c cc,
      events run = before ++ [EvCall request c (Return res)] /\
      Forall call_failed before /\
      containers (final run) !! c = Some cc /\
      fail_uses cc = 0 /\ blocked_until cc = None.
Proof.
  induction left as [| left IH]; intros container last_error s res Hrange;
    cbn [failover_loop]; cbv zeta.
  - unfold after_loop. destruct last_error; discriminate.
  - destruct container as [c|]; [| unfold after_loop; destruct last_error; discriminate].
    specialize (Hrange c eq_refl).
    rewrite events_bind, result_bind, final_bind, events_call_engine.
    pose proof (containers_call_engine self request c s) as Hcs.
    set (s1 := final (call_engine self request c s)) in *.
    destruct (result (call_engine self request c s))
      as [res' | [sc msg | msg cause | m | m]];
      rewrite !events_bind, !result_bind, !final_bind;
      cbn [ret events result final fst snd]; try discriminate.
    + intros [= ->]. exists [], c.
      rewrite (proj1 (quiet_mark_success_m c s1)).
      rewrite mark_success_m_containers, Hcs.
      destruct (lookup_lt_is_Some_2 (containers s) c Hrange) as [cc Hcc].
      exists (mark_success (next_reading s1) cc).
      rewrite list_lookup_alter_eq, Hcc. cbn. repeat split. constructor.
    + rewrite (proj1 (quiet_mark_failure_m c s1)), (proj1 (quiet_get_container _ _ _)).
      cbn [app].
      set (s2 := final (mark_failure_m c s1)).
      set (s3 := final (_get_container false (Some c) s2)).
      intros Hres.
      edestruct (IH (result (_get_container false (Some c) s2))
                    (Some (TranslationError msg cause))
                    (final ((if 0 <? attempt_delay_ms (capabilities self)
                             then sleep (inject_Z (attempt_delay_ms (capabilities self)) / 1000)
                             else ret tt) s3)) res)
        as (before & c' & cc & Hev & Hfail & Hlook & Hreset); [| exact Hres |].
      { intros d Hd. rewrite pause_keeps_containers. subst s3.
        rewrite (proj2 (quiet_get_container false (Some c) s2)).
        eapply get_container_in_range. exact Hd. }
      rewrite Hev.
      eexists (_ :: _ ++ before), c', cc.
      split; [cbn [app]; rewrite <- app_assoc; reflexivity|].
      split; [| split; assumption].
      constructor; [exact I|]. apply Forall_app. split; [apply pause_call_failed | exact Hfail].
Qed.

(** X19.  A failover run that returns a result ends with the engine
    call that returned it; every engine call before it raised a
    [TranslationError]; and the container of the successful call is
    left with [fail_uses = 0] and no block. *)
Theorem failover_success_resets_container (self : Translator)
        (request : TranslationRequest) (s : State) (res : TranslationResult) :
  let run := _translate_with_failover self request s in
  result run = Return res ->
  exists before c cc,
    events run = before ++ [EvCall request c (Return res)] /\
    Forall call_failed before /\
    containers (final run) !! c = Some cc /\
    fail_uses cc = 0 /\ blocked_until cc = None.
Proof.
  cbv zeta. unfold _translate_with_failover.
  rewrite !events_bind, !result_bind, !final_bind.
  rewrite (proj1 (quiet_get_container true None s)).
  cbn [gets events result final fst snd app].
  apply loop_success.
  intros c Hc. rewrite (proj2 (quiet_get_container true None s)).
  eapply get_container_in_range. exact Hc.
Qed.

Lemma failover_success_resets_container_witness :
  exists before c cc,
    events (_translate_with_failover Examples.engine_echo (Examples.request "text")
              (Examples.state [Examples.blocked_container]))
    = before ++ [EvCall (Examples.request "text") c
                        (Return (mkResult "text" None []))] /\
    Forall call_failed before /\
    containers (final (_translate_with_failover Examples.engine_echo
                         (Examples.request "text")
                         (Examples.state [Examples.blocked_container]))) !! c = Some cc /\
    fail_uses cc = 0 /\ blocked_until cc = None.
Proof.
  exact (failover_success_resets_container
           Examples.engine_echo (Examples.request "text")
           (Examples.state [Examples.blocked_container])
           (mkResult "text" None []) eq_refl).
Defined.

(** In the events of the loop a call that raised an unexpected
    exception comes last, and the loop raises a [TranslationError]
    wrapping it. *)
Lemma loop_unexpected_last self request left :
  forall container last_error s r c e,
    unexpected e ->
    let run := failover_loop self request left container last_error s in
    In (EvCall r c (Raise e)) (events run) ->
    result run = Raise (TranslationError (str e) (Some e)) /\
    exists before, events run = before ++ [EvCall r c (Raise e)].
Proof.
  induction left as [| left IH]; intros container last_error s r c e He;
    cbn [failover_loop]; cbv zeta; [intros []|].
  destruct container as [c0|]; [| intros []].
  rewrite events_bind, result_bind, events_call_engine.
  destruct (result (call_engine self request c0 s))
    as [res | [sc0 msg0 | msg0 cause | m | m]];
    rewrite !events_bind, !result_bind,
      ?(proj1 (quiet_mark_failure_m c0 _)), ?(proj1 (quiet_mark_success_m c0 _));
    cbn [app ret events result fst snd]; intros Hin;
    try (destruct Hin as [Hin | []]; try discriminate Hin).
  - injection Hin as <- <- <-. contradiction.
  - destruct Hin as [Hin | Hin]; [injection Hin as <- <- <-; contradiction|].
    revert Hin. rewrite (proj1 (quiet_get_container _ _ _)). cbn [app]. intros Hin.
    apply in_app_or in Hin as [Hin | Hin].
    + apply in_pause_not_call in Hin. discriminate Hin.
    + destruct (IH _ _ _ _ _ _ He Hin) as [Hres [before Hbefore]].
      split; [exact Hres|].
      rewrite Hbefore. eexists (_ :: _ ++ before).
      cbn [app]. rewrite <- app_assoc. reflexivity.
  - injection Hin as <- <- <-. split; [reflexivity|]. exists []. reflexivity.
  - injection Hin as <- <- <-. split; [reflexivity|]. exists []. reflexivity.
Qed.

(** X20.  An exception of the engine that is neither a
    [LimitedModeError] nor a [TranslationError] is not retried: the
    call that raised it is the last event of the run, and the run
    raises [TranslationError(str(exc))] with that exception as cause. *)
Theorem unexpected_exception_wrapped (self : Translator) (request : TranslationRequest)
        (s : State) (r : TranslationRequest) (c : nat) (e : PyExc) :
  unexpected e ->
  let run := _translate_with_failover self request s in
  In (EvCall r c (Raise e)) (events run) ->
  result run = Raise (TranslationError (str e) (Some e)) /\
  exists before, events run = before ++ [EvCall r c (Raise e)].
Proof.
  intros He. cbv zeta. unfold _translate_with_failover.
  rewrite !events_bind, !result_bind.
  rewrite (proj1 (quiet_get_container true None s)).
  cbn [gets events result final fst snd app].
  apply loop_unexpected_last. exact He.
Qed.

Lemma unexpected_exception_wrapped_witness :
  let run := _translate_with_failover (Examples.engine_raising (OtherException "down"))
               (Examples.request "text")
               (Examples.state [Examples.container true 3; Examples.container false 3]) in
  result run = Raise (TranslationError "down" (Some (OtherException "down"))) /\
  exists before,
    events run
    = before ++ [EvCall (Examples.request "text") 0 (Raise (OtherException "down"))].
Proof.
  exact (unexpected_exception_wrapped
           (Examples.engine_raising (OtherException "down")) (Examples.request "text")
           (Examples.state [Examples.container true 3; Examples.container false 3])
           (Examples.request "text") 0 (OtherException "down") I
           ltac:(vm_compute; left; reflexivity)).
Defined.

Lemma loop_keeps_count self request left :
  forall container last_error s,
    length (containers (final (failover_loop self request left container last_error s)))
    = length (containers s).
Proof.
  induction left as [| left IH]; intros container last_error s;
    cbn [failover_loop]; [reflexivity|].
  destruct container as [c|]; [| reflexivity].
  rewrite final_bind.
  pose proof (containers_call_engine self request c s) as Hcs.
  set (s1 := final (call_engine self request c s)) in *.
  destruct (result (call_engine self request c s))
    as [res | [sc msg | msg cause | m | m]];
    rewrite !final_bind; cbn [ret final fst snd];
    try (rewrite (proj2 (quiet_mark_failure_m c s1)), Hcs; reflexivity).
  - rewrite (proj2 (quiet_mark_success_m c s1)), Hcs. reflexivity.
  - rewrite IH, pause_keeps_containers, (proj2 (quiet_get_container _ _ _)),
      (proj2 (quiet_mark_failure_m c s1)), Hcs. reflexivity.
Qed.

Lemma failover_keeps_count self request s :
  length (containers (final (_translate_with_failover self request s)))
  = length (containers s).
Proof.
  unfold _translate_with_failover. rewrite !final_bind.
  cbn [gets result final fst snd].
  rewrite loop_keeps_count. apply quiet_get_container.
Qed.

Lemma failover_calls_bound self request s :
  (count_calls (events (_translate_with_failover self request s))
   <= Z.to_nat (max_attempts (containers s)))%nat.
Proof.
  unfold _translate_with_failover. rewrite !events_bind.
  rewrite (proj1 (quiet_get_container true None s)).
  cbn [gets events result final fst snd app].
  etransitivity; [apply loop_calls|].
  unfold max_attempts. rewrite (proj2 (quiet_get_container true None s)). lia.
Qed.

Lemma failover_success_called self request s res :
  result (_translate_with_failover self request s) = Return res ->
  (1 <= count_calls (events (_translate_with_failover self request s)))%nat.
Proof.
  unfold _translate_with_failover.
  rewrite !events_bind, !result_bind.
  rewrite (proj1 (quiet_get_container true None s)).
  cbn [gets events result final fst snd app].
  intros Hres. apply loop_success in Hres as (before & c & cc & Hev & _).
  - rewrite Hev, count_calls_app. cbn. lia.
  - intros c Hc. rewrite (proj2 (quiet_get_container true None s)).
    eapply get_container_in_range. exact Hc.
Qed.

(** X21.  The sequential [translate_batch] calls the engine at most
    [max_attempts] times per request and keeps the number of
    containers; when it returns, it returns one result per request and
    has called the engine at least once per request. *)
Theorem translate_batch_cardinality (self : Translator)
        (requests : list TranslationRequest) (s : State) :
  let run := translate_batch self requests s in
  (count_calls (events run)
   <= length requests * Z.to_nat (max_attempts (containers s)))%nat /\
  length (containers (final run)) = length (containers s) /\
  (forall results, result run = Return results ->
                   length results = length requests /\
                   (length requests <= count_calls (events run))%nat).
Proof.
  revert s. induction requests as [| req requests IH]; intros s; cbn [translate_batch].
  - cbn. split; [lia|]. split; [reflexivity|].
    intros results [= <-]. split; [reflexivity | cbn; lia].
  - cbv zeta. rewrite events_bind, final_bind, result_bind, count_calls_app.
    pose proof (failover_calls_bound self req s) as Hb.
    pose proof (failover_keeps_count self req s) as Hk.
    pose proof (failover_success_called self req s) as Hok.
    set (s1 := final (_translate_with_failover self req s)) in *.
    destruct (result (_translate_with_failover self req s)) as [res | e] eqn:Hres.
    + rewrite events_bind, final_bind, result_bind, count_calls_app.
      destruct (IH s1) as (Hc & Hl & Hr).
      assert (Hsame : max_attempts (containers s1) = max_attempts (containers s))
        by (unfold max_attempts; rewrite Hk; reflexivity).
      rewrite Hsame in Hc.
      pose proof (Hok res eq_refl) as Hone.
      destruct (result (translate_batch self requests s1)) as [results | e] eqn:Hrest;
        cbn [ret events result final fst snd count_calls List.filter length app];
        (split; [cbn [length]; lia |]); (split; [congruence |]).
      * intros rs [= <-]. destruct (Hr results eq_refl) as [Hlen Hcount].
        cbn [length]. split; [congruence | lia].
      * discriminate.
    + cbn [ret events result final fst snd count_calls List.filter length].
      split; [lia|]. split; [exact Hk | discriminate].
Qed.

(** X22.  [Translator.translate_text] is one run of the failover for
    its request: same result or exception, same final state, same
    events. *)
Theorem translate_text_is_failover (self : Translator) (request : TranslationRequest)
        (s : State) :
  translate_text self request s = _translate_with_failover self request s.
Proof.
  unfold translate_text. cbn [translate_batch]. unfold bind, ret.
  destruct (_translate_with_failover self request s) as [[[res | e] s1] ev]; cbn;
    rewrite ?app_nil_r; reflexivity.
Qed.
End FailoverMore.

Section ServiceMore.
Import Base Translator Service.

Lemma call_engine_keeps_ctx self request c :
  preserves ctx_manager (call_engine self request c).
Proof.
  intros s. unfold call_engine, final.
  destruct (_translate_request self request c (world s)); reflexivity.
Qed.

Lemma update_container_keeps_ctx i f : preserves ctx_manager (update_container i f).
Proof. intros s. reflexivity. Qed.

Lemma monotonic_keeps_ctx : preserves ctx_manager monotonic.
Proof. intros s. reflexivity. Qed.

Ltac keeps_ctx :=
  repeat first
    [ apply preserves_ret | apply preserves_gets
    | apply update_container_keeps_ctx | apply monotonic_keeps_ctx
    | apply call_engine_keeps_ctx
    | apply preserves_bind; [| intros ?]
    | match goal with
      | |- preserves _ (match ?x with _ => _ end) => destruct x
      | |- preserves _ (if ?x then _ else _) => destruct x
      end ].

Lemma unblocked_keeps_ctx l : preserves ctx_manager (unblocked l).
Proof.
  induction l as [| i l IH]; cbn [unblocked]; [apply preserves_ret|].
  apply preserves_bind; [unfold is_blocked_m; keeps_ctx | intros b].
  apply preserves_bind; [exact IH | intros keep; apply preserves_ret].
Qed.

Lemma get_container_keeps_ctx pp lu : preserves ctx_manager (_get_container pp lu).
Proof.
  unfold _get_container, _primary_container, restore_m.
  apply preserves_bind; [apply preserves_gets | intros cs].
  apply preserves_bind; [apply unblocked_keeps_ctx | intros av].
  keeps_ctx.
Qed.

Lemma loop_keeps_ctx self request left :
  forall container last_error,
    preserves ctx_manager (failover_loop self request left container last_error).
Proof.
  induction left as [| left IH]; intros container last_error; cbn [failover_loop];
    [apply preserves_ret|].
  destruct container as [c|]; [| apply preserves_ret].
  apply preserves_bind; [apply call_engine_keeps_ctx | intros out].
  assert (Hfail : preserves ctx_manager (mark_failure_m c))
    by (unfold mark_failure_m; keeps_ctx).
  assert (Hok : preserves ctx_manager (mark_success_m c))
    by (unfold mark_success_m; keeps_ctx).
  destruct out as [res | [sc msg | msg cause | m | m]];
    try (apply preserves_bind; [assumption | intros u; apply preserves_ret]).
  apply preserves_bind; [exact Hfail | intros u].
  apply preserves_bind; [apply get_container_keeps_ctx | intros c'].
  apply preserves_bind; [| intros u'; apply IH].
  destruct (0 <? _); intros s; reflexivity.
Qed.

Lemma failover_keeps_ctx self request :
  preserves ctx_manager (_translate_with_failover self request).
Proof.
  unfold _translate_with_failover.
  apply preserves_bind; [apply get_container_keeps_ctx | intros c].
  apply preserves_bind; [apply preserves_gets | intros cs]. apply loop_keeps_ctx.
Qed.

Lemma translate_batch_keeps_ctx self requests :
  preserves ctx_manager (translate_batch self requests).
Proof.
  induction requests as [| req requests IH]; cbn [translate_batch]; [apply preserves_ret|].
  apply preserves_bind; [apply failover_keeps_ctx | intros out].
  destruct out; [| apply preserves_ret].
  apply preserves_bind; [exact IH | intros outs]. destruct outs; apply preserves_ret.
Qed.

Lemma backoff_ops_keep_ctx engine_id reason :
  preserves ctx_manager (RateLimiter.activate_slow_mode engine_id reason) /\
  preserves ctx_manager (RateLimiter.get_backoff_state engine_id).
Proof.
  assert (Hget : preserves ctx_manager (RateLimiter.get_backoff_state engine_id)).
  { intros s. unfold RateLimiter.get_backoff_state, final.
    destruct (backoffs (world s) !! engine_id); reflexivity. }
  split; [| exact Hget].
  unfold RateLimiter.activate_slow_mode.
  apply preserves_bind; [exact Hget | intros st].
  apply preserves_bind; [apply monotonic_keeps_ctx | intros now].
  apply preserves_bind; [intros s; reflexivity | intros u; apply preserves_ret].
Qed.

Lemma retry_keeps_ctx {T} svc engine_id (fn : M (Outcome T)) :
  _rate_limit_callback svc = None ->
  preserves ctx_manager fn ->
  preserves ctx_manager (_run_with_rate_limit_retry svc engine_id fn).
Proof.
  intros Hcb Hfn. unfold _run_with_rate_limit_retry. rewrite Hcb.
  apply preserves_bind; [exact Hfn | intros out].
  destruct out as [v | [sc msg | m c | m | m]]; try apply preserves_ret.
  apply preserves_bind; [apply (proj1 (backoff_ops_keep_ctx engine_id (Some msg))) | intros b].
  apply preserves_bind; [apply preserves_ret | intros u].
  apply preserves_bind; [apply (proj2 (backoff_ops_keep_ctx engine_id None)) | intros st].
  apply preserves_bind; [intros s; reflexivity | intros u2].
  apply preserves_bind; [exact Hfn | intros out2].
  destruct out2 as [v | [sc2 msg2 | m c | m | m]]; apply preserves_ret.
Qed.

Lemma not_blank_text (text : string) :
  Py.strip text <> ""%string ->
  negb (Py.truthy_str text) || String.eqb (Py.strip text) "" = false.
Proof.
  intros H. apply orb_false_iff. split.
  - destruct text; [contradiction H; reflexivity | reflexivity].
  - apply String.eqb_neq. exact H.
Qed.

(** X23.  For an empty or whitespace-only text the service returns the
    text as it is, calls no engine and changes nothing, not even the
    context when [reset_context] is set. *)
Theorem service_translate_text_blank (svc : TranslationService) (text : string)
        (project : Knowledge.TitleProject) (knowledge : Knowledge.TitleKnowledge)
        (engine_id : string) (src_lang dst_lang : option string)
        (reset_context : bool) (s : State) :
  Py.strip text = ""%string ->
  Service.translate_text svc text project knowledge engine_id src_lang dst_lang
                         reset_context s
  = ((Return text, s), []).
Proof.
  intros H. unfold Service.translate_text. rewrite H. cbn [String.eqb].
  rewrite orb_true_r. reflexivity.
Qed.

Lemma service_translate_text_blank_witness :
  Service.translate_text Examples.service "  " Examples.project Examples.knowledge
                         "deepl" None None true (Examples.state [])
  = ((Return "  "%string, Examples.state []), []).
Proof.
  exact (service_translate_text_blank Examples.service "  " Examples.project
           Examples.knowledge "deepl" None None true (Examples.state []) eq_refl).
Defined.

(** X24.  For a service without callback and a non-blank text: after
    [translate_text] the context is the one the call started with
    (cleared first when [reset_context] is set) plus the pair (text,
    translation) when a non-empty translation is returned, and exactly
    that starting context when the translation is empty or the call
    raises. *)
Theorem service_translate_text_context (svc : TranslationService) (text : string)
        (project : Knowledge.TitleProject) (knowledge : Knowledge.TitleKnowledge)
        (engine_id : string) (src_lang dst_lang : option string)
        (reset_context : bool) (s : State) :
  _rate_limit_callback svc = None ->
  Py.strip text <> ""%string ->
  let run := Service.translate_text svc text project knowledge engine_id
               src_lang dst_lang reset_context s in
  let ctx0 := if reset_context then Context.clear (ctx_manager s) else ctx_manager s in
  ctx_manager (final run)
  = match result run with
    | Return translated =>
        if Py.truthy_str translated
        then Context.add_segment text translated ctx0
        else ctx0
    | Raise _ => ctx0
    end.
Proof.
  intros Hcb Htext. cbv zeta. unfold Service.translate_text.
  rewrite (not_blank_text text Htext).
  rewrite final_bind, result_bind.
  set (reset := if reset_context then _ else _).
  assert (Hctx0 : ctx_manager (final (reset s))
                  = if reset_context then Context.clear (ctx_manager s) else ctx_manager s)
    by (subst reset; destruct reset_context; reflexivity).
  rewrite <- Hctx0. set (s0 := final (reset s)).
  destruct (_get_translator svc (normalize_translator_id engine_id)) as [translator | e];
    [| reflexivity].
  rewrite !final_bind, !result_bind. cbn [gets result final fst snd].
  match goal with
  | |- context [_run_with_rate_limit_retry svc ?id ?fn s0] =>
      pose proof (retry_keeps_ctx svc id fn Hcb) as Hkeep;
      set (call := _run_with_rate_limit_retry svc id fn s0) in *
  end.
  assert (Hk : ctx_manager (final call) = ctx_manager s0).
  { apply Hkeep. unfold Translator.translate_text.
    apply preserves_bind; [apply translate_batch_keeps_ctx | intros outs].
    destruct outs as [[| r rs] | e]; apply preserves_ret. }
  destruct (result call) as [res | e]; [| cbn; exact Hk].
  rewrite !final_bind, !result_bind. cbn [ret result final fst snd].
  destruct (Py.truthy_str _); cbn; rewrite Hk; reflexivity.
Qed.

Lemma service_translate_text_context_witness :
  let run := Service.translate_text Examples.service "hello" Examples.project
               Examples.knowledge "deepl" None None false
               (Examples.state [Examples.container true 3]) in
  result run = Return "hello"%string /\
  Context._history (ctx_manager (final run)) = [Context.mkEntry "hello" "hello"].
Proof.
  pose proof (service_translate_text_context Examples.service "hello" Examples.project
                Examples.knowledge "deepl" None None false
                (Examples.state [Examples.container true 3])
                eq_refl ltac:(discriminate)) as H.
  cbv zeta in H. split; [reflexivity|]. rewrite H. reflexivity.
Defined.
Lemma set_translated_text_same (b : Page.TextBlock) :
  Page.set_translated_text (Page.translated_text b) b = b.
Proof. destruct b; reflexivity. Qed.

Lemma retranslated_refl (blocks : list Page.TextBlock) : retranslated blocks blocks.
Proof.
  split; [reflexivity|]. intros i b Hb. exists (Page.translated_text b).
  rewrite set_translated_text_same. exact Hb.
Qed.

Lemma retranslated_trans (l1 l2 l3 : list Page.TextBlock) :
  retranslated l1 l2 -> retranslated l2 l3 -> retranslated l1 l3.
Proof.
  intros [Hl12 H12] [Hl23 H23]. split; [congruence|].
  intros i b Hb. destruct (H12 i b Hb) as [t Ht].
  destruct (H23 i _ Ht) as [t' Ht']. exists t'. exact Ht'.
Qed.

Lemma retranslated_alter (blocks : list Page.TextBlock) (j : nat) (t : string) :
  retranslated blocks (alter (Page.set_translated_text t) j blocks).
Proof.
  split; [apply length_alter|]. intros i b Hb.
  destruct (decide (j = i)) as [-> | Hne].
  - exists t. rewrite list_lookup_alter_eq, Hb. reflexivity.
  - exists (Page.translated_text b).
    rewrite list_lookup_alter_ne by assumption. rewrite set_translated_text_same. exact Hb.
Qed.

Lemma apply_results_retranslated knowledge pairs :
  forall blocks s, retranslated blocks (result (apply_results knowledge pairs blocks s)).
Proof.
  induction pairs as [| [[j req] res] pairs IH]; intros blocks s; cbn [apply_results].
  - apply retranslated_refl.
  - rewrite result_bind.
    eapply retranslated_trans; [apply retranslated_alter | apply IH].
Qed.

Lemma collect_retranslated project knowledge src dst limit blocks s :
  retranslated blocks
    (fst (result (collect_requests project knowledge src dst limit 0 blocks s))).
Proof.
  destruct (collect_requests_spec project knowledge src dst limit blocks 0 s)
    as (_ & _ & -> & _).
  split; [apply length_map|]. intros i b Hb.
  rewrite list_lookup_fmap, Hb. cbn.
  destruct (blank (Page.original_text b)); [eauto|].
  exists (Page.translated_text b). rewrite set_translated_text_same. reflexivity.
Qed.

(** X25.  Whether it returns or raises, [translate_blocks] leaves the
    same number of blocks, each one equal to the block it was given up
    to [translated_text]; the list it returns is that list of blocks;
    and when the engine id does not resolve to a translator it raises
    the error of the resolution and touches no block. *)
Theorem translate_blocks_only_sets_translations
        (svc : TranslationService) (blocks : list Page.TextBlock)
        (project : Knowledge.TitleProject) (knowledge : Knowledge.TitleKnowledge)
        (engine_id : string) (src_lang dst_lang : option string)
        (reset_context : bool) (s : State) :
  let run := translate_blocks svc blocks project knowledge engine_id
               src_lang dst_lang reset_context s in
  retranslated blocks (snd (result run)) /\
  (forall returned, fst (result run) = Return returned -> returned = snd (result run)) /\
  (forall e, _get_translator svc (normalize_translator_id engine_id) = Raise e ->
             result run = (Raise e, blocks)).
Proof.
  cbv zeta. unfold translate_blocks. rewrite result_bind.
  set (s0 := final (_ s)).
  destruct (_get_translator svc (normalize_translator_id engine_id)) as [translator | e].
  - split; [| split; [| discriminate]].
    + rewrite result_bind.
      match goal with
      | |- context [collect_requests ?p ?k ?sr ?ds ?l 0%nat blocks s0] =>
          pose proof (collect_retranslated p k sr ds l blocks s0) as Hcol;
          set (r := result (collect_requests p k sr ds l 0%nat blocks s0)) in *
      end.
      destruct (negb (Py.truthy_list (map snd (snd r)))); [exact Hcol|].
      rewrite result_bind.
      destruct (result (run_batches _ _ _ _ _)) as [all_results | e]; [| exact Hcol].
      destruct (negb (length all_results =? length (snd r))%nat); [exact Hcol|].
      rewrite result_bind. cbn [ret result fst snd].
      eapply retranslated_trans; [exact Hcol | apply apply_results_retranslated].
    + rewrite result_bind.
      match goal with
      | |- context [collect_requests ?p ?k ?sr ?ds ?l 0%nat blocks s0] =>
          set (r := result (collect_requests p k sr ds l 0%nat blocks s0)) in *
      end.
      destruct (negb (Py.truthy_list (map snd (snd r))));
        [cbn; intros returned [= <-]; reflexivity|].
      rewrite result_bind.
      destruct (result (run_batches _ _ _ _ _)) as [all_results | e]; [| discriminate].
      destruct (negb (length all_results =? length (snd r))%nat); [discriminate|].
      rewrite result_bind. cbn [ret result fst snd]. intros returned [= <-]. reflexivity.
  - cbn [ret result fst snd]. split; [apply retranslated_refl|].
    split; [discriminate|]. intros e' [= <-]. reflexivity.
Qed.

Lemma collect_requests_context project knowledge src dst limit (blocks : list Page.TextBlock) :
  forall k s j req,
    In (j, req) (snd (result (collect_requests project knowledge src dst limit k blocks s))) ->
    context req = Some (Context.get_recent_context limit (ctx_manager s)) /\
    src_lang req = src /\ dst_lang req = dst.
Proof.
  induction blocks as [| block blocks IH]; intros k s j req; cbn [collect_requests].
  - intros [].
  - destruct (collect_requests_spec project knowledge src dst limit blocks (S k) s)
      as (_ & Hfin & _).
    destruct (negb (Py.truthy_str (Py.strip (Page.original_text block)))).
    + rewrite result_bind. cbn [ret result fst snd]. apply IH.
    + rewrite !result_bind. cbn [gets ret result final fst snd].
      intros [[= <- <-] | Hin]; [cbn; auto | eapply IH; exact Hin].
Qed.

(** X26.  Every request that reaches the engine during one
    [translate_blocks] call carries the same context: the recent
    entries of the context as it was when the call started (after the
    optional reset).  The translations made in the call are not seen
    by the other blocks of the call. *)
Theorem translate_blocks_calls_share_context
        (svc : TranslationService) (blocks : list Page.TextBlock)
        (project : Knowledge.TitleProject) (knowledge : Knowledge.TitleKnowledge)
        (engine_id : string) (src_lang dst_lang : option string)
        (reset_context : bool) (s : State) (translator : Translator)
        (req : TranslationRequest) (c : nat) (out : Outcome TranslationResult) :
  _get_translator svc (normalize_translator_id engine_id) = Return translator ->
  In (EvCall req c out)
     (events (translate_blocks svc blocks project knowledge engine_id
                src_lang dst_lang reset_context s)) ->
  let ctx0 := if reset_context then Context.clear (ctx_manager s) else ctx_manager s in
  let limit := if context_window (capabilities translator) =? 0 then 10
               else context_window (capabilities translator) in
  context req = Some (Context.get_recent_context limit ctx0).
Proof.
  intros Hres. cbv zeta. unfold translate_blocks. rewrite Hres.
  rewrite !events_bind.
  set (reset := if reset_context then _ else _).
  assert (Hreset : events (reset s) = [])
    by (subst reset; destruct reset_context; reflexivity).
  assert (Hctx0 : ctx_manager (final (reset s))
                  = if reset_context then Context.clear (ctx_manager s) else ctx_manager s)
    by (subst reset; destruct reset_context; reflexivity).
  rewrite Hreset, <- Hctx0. cbn [app]. set (s0 := final (reset s)).
  match goal with
  | |- context [collect_requests ?p ?k ?sr ?ds ?l 0%nat blocks s0] =>
      pose proof (collect_requests_spec p k sr ds l blocks 0 s0) as (Hev & _ & _ & _);
      pose proof (collect_requests_context p k sr ds l blocks 0%nat s0) as Hpairs;
      rewrite Hev;
      set (r := result (collect_requests p k sr ds l 0%nat blocks s0)) in *
  end.
  cbn [app].
  destruct (negb (Py.truthy_list (map snd (snd r)))); [intros []|].
  rewrite events_bind. intros Hin. apply in_app_or in Hin as [Hin | Hin].
  - apply run_batches_calls_within in Hin. rewrite split_concat in Hin.
    apply in_map_iff in Hin as ([j req'] & <- & Hin).
    apply Hpairs in Hin as [Hctx _]. exact Hctx.
  - exfalso. revert Hin.
    destruct (result (run_batches _ _ _ _ _)) as [all_results | e]; [| intros []].
    destruct (negb (length all_results =? length (snd r))%nat); [intros []|].
    rewrite events_bind, apply_results_silent. intros [].
Qed.

Lemma translate_blocks_calls_share_context_witness :
  context Examples.hello_request = Some (Context.get_recent_context 10 (Context.mkManager 50 [])).
Proof.
  exact (translate_blocks_calls_share_context
           Examples.service
           [Examples.block "b1" "hello" "old"; Examples.block "b2" "   " "old"]
           Examples.project Examples.knowledge "deepl" None None false
           (Examples.state [Examples.container true 3]) Examples.engine_echo
           Examples.hello_request 0
           (Return (mkResult "hello" None
                             [("block_id", "b1"); ("block_type", "dialog")]%string))
           eq_refl ltac:(vm_compute; left; reflexivity)).
Defined.

Lemma loop_never_mismatch self request left :
  forall container last_error s,
    result (failover_loop self request left container last_error s) <> Raise count_mismatch.
Proof.
  assert (Hafter : forall le, after_loop le <> Raise count_mismatch).
  { intros [e|]; unfold after_loop, count_mismatch; discriminate. }
  induction left as [| left IH]; intros container last_error s; cbn [failover_loop];
    [apply Hafter|].
  destruct container as [c|]; [| apply Hafter].
  rewrite result_bind.
  destruct (result (call_engine self request c s))
    as [res | [sc msg | msg cause | m | m]];
    rewrite !result_bind; cbn [ret result fst snd]; try discriminate.
  apply IH.
Qed.

Lemma translate_batch_outcome self requests :
  forall s,
    match result (translate_batch self requests s) with
    | Return results => length results = length requests
    | Raise e => e <> count_mismatch
    end.
Proof.
  induction requests as [| req requests IH]; intros s; cbn [translate_batch];
    [reflexivity|].
  rewrite result_bind.
  destruct (result (_translate_with_failover self req s)) as [res | e] eqn:Hres.
  - rewrite result_bind.
    specialize (IH (final (_translate_with_failover self req s))).
    destruct (result (translate_batch self requests _)) as [results | e];
      cbn [ret result fst snd length]; [congruence | exact IH].
  - cbn [ret result fst snd]. intros ->. revert Hres.
    unfold _translate_with_failover. rewrite !result_bind.
    apply loop_never_mismatch.
Qed.

Lemma retry_outcome {T} svc engine_id (fn : M (Outcome T)) (P : T -> Prop) :
  (forall s, match result (fn s) with
             | Return v => P v
             | Raise e => e <> count_mismatch
             end) ->
  forall s, match result (_run_with_rate_limit_retry svc engine_id fn s) with
            | Return v => P v
            | Raise e => e <> count_mismatch
            end.
Proof.
  intros Hfn s. unfold _run_with_rate_limit_retry. rewrite result_bind.
  pose proof (Hfn s) as H1.
  destruct (result (fn s)) as [v | [sc msg | m c | m | m]]; try exact H1.
  rewrite !result_bind.
  match goal with
  | |- context [fn ?s2] => pose proof (Hfn s2) as H2; destruct (result (fn s2))
                             as [v | [sc2 msg2 | m c | m | m]]
  end; cbn [ret result fst snd]; try exact H2.
  unfold count_mismatch. discriminate.
Qed.

Lemma run_batches_outcome svc translator engine_id batches :
  forall s,
    match result (run_batches svc translator engine_id batches s) with
    | Return all_results => length all_results = length (concat batches)
    | Raise e => e <> count_mismatch
    end.
Proof.
  induction batches as [| batch batches IH]; intros s; cbn [run_batches]; [reflexivity|].
  rewrite result_bind.
  pose proof (retry_outcome svc engine_id (translate_batch translator batch)
                (fun results => length results = length batch)
                (translate_batch_outcome translator batch) s) as H1.
  destruct (result (_run_with_rate_limit_retry _ _ _ s)) as [batch_results | e];
    [| exact H1].
  rewrite result_bind.
  match goal with
  | |- context [run_batches _ _ _ batches ?s2] => specialize (IH s2)
  end.
  destruct (result (run_batches _ _ _ batches _)) as [all_results | e];
    cbn [ret result fst snd concat]; [| exact IH].
  rewrite !length_app. congruence.
Qed.

(** X27.  With the sequential [translate_batch], [translate_blocks]
    never raises its own "unexpected number of results" error: the
    batches always give one result per request, so the count check
    cannot fail. *)
Theorem translate_blocks_never_count_mismatch
        (svc : TranslationService) (blocks : list Page.TextBlock)
        (project : Knowledge.TitleProject) (knowledge : Knowledge.TitleKnowledge)
        (engine_id : string) (src_lang dst_lang : option string)
        (reset_context : bool) (s : State) (translator : Translator) :
  _get_translator svc (normalize_translator_id engine_id) = Return translator ->
  fst (result (translate_blocks svc blocks project knowledge engine_id
                 src_lang dst_lang reset_context s)) <> Raise count_mismatch.
Proof.
  intros Hres. unfold translate_blocks. rewrite Hres.
  rewrite !result_bind.
  set (s0 := final (_ s)).
  match goal with
  | |- context [collect_requests ?p ?k ?sr ?ds ?l 0%nat blocks s0] =>
      set (r := result (collect_requests p k sr ds l 0%nat blocks s0)) in *
  end.
  destruct (negb (Py.truthy_list (map snd (snd r)))); [discriminate|].
  rewrite result_bind.
  match goal with
  | |- context [run_batches ?a ?b ?c ?d ?st] =>
      pose proof (run_batches_outcome a b c d st) as Hrun;
      destruct (result (run_batches a b c d st)) as [all_results | e]
  end.
  - rewrite split_concat, length_map in Hrun.
    rewrite Hrun, Nat.eqb_refl. cbn [negb].
    rewrite result_bind. discriminate.
  - cbn [ret result fst snd]. congruence.
Qed.

Lemma translate_blocks_never_count_mismatch_witness :
  fst (result (translate_blocks Examples.service
                 [Examples.block "b1" "hello" "old"; Examples.block "b2" "   " "old"]
                 Examples.project Examples.knowledge "deepl" None None false
                 (Examples.state [Examples.container true 3])))
  <> Raise count_mismatch.
Proof.
  exact (translate_blocks_never_count_mismatch Examples.service
           [Examples.block "b1" "hello" "old"; Examples.block "b2" "   " "old"]
           Examples.project Examples.knowledge "deepl" None None false
           (Examples.state [Examples.container true 3]) Examples.engine_echo eq_refl).
Defined.
End ServiceMore.

Section GlossaryMore.
Import Service.

Lemma replace_absent (old new : string) :
  forall s, Py.contains old s = false -> Py.replace s old new = s.
Proof.
  unfold Py.replace.
  induction s as [| c s IH]; intros H; [reflexivity|].
  cbn [Py.contains] in H. apply orb_false_iff in H as [Hstart Hrest].
  cbn [Py.replace_from]. rewrite Hstart. f_equal. apply IH. exact Hrest.
Qed.

Lemma apply_term_absent (text : string) (term : Knowledge.Term) :
  absent (Knowledge.source term) text -> apply_term text term = text.
Proof.
  intros [H | H]; unfold apply_term.
  - rewrite H. reflexivity.
  - destruct (Py.truthy_str _ && Py.truthy_str _); [| reflexivity].
    apply replace_absent. exact H.
Qed.

Lemma apply_character_absent (text : string) (character : Knowledge.Character) :
  (forall n, In n (Knowledge.original_names character) -> absent n text) ->
  apply_character text character = text.
Proof.
  intros H. unfold apply_character.
  destruct (negb (Py.truthy_str (Knowledge.char_display_name character))); [reflexivity|].
  induction (Knowledge.original_names character) as [| n names IH]; [reflexivity|].
  cbn [fold_left].
  assert (Hn : (if Py.truthy_str n
                then Py.replace text n (Knowledge.char_display_name character)
                else text) = text).
  { destruct (H n (or_introl eq_refl)) as [-> | Hn]; [reflexivity|].
    destruct (Py.truthy_str n); [| reflexivity]. apply replace_absent. exact Hn. }
  rewrite Hn. apply IH. intros m Hm. apply H. right. exact Hm.
Qed.

(** X28.  A translation in which no glossary source and no original
    character name occurs (empty sources and names are skipped by the
    code) comes out of [_apply_glossary_and_name_fixes] unchanged. *)
Theorem glossary_leaves_unrelated_text (text : string)
        (knowledge : Knowledge.TitleKnowledge) :
  (forall term, In term (Knowledge.terms knowledge) ->
                absent (Knowledge.source term) text) ->
  (forall character n,
      In character (Knowledge.characters knowledge) ->
      In n (Knowledge.original_names character) -> absent n text) ->
  _apply_glossary_and_name_fixes text knowledge = text.
Proof.
  intros Hterms Hnames. unfold _apply_glossary_and_name_fixes.
  assert (Ht : fold_left apply_term (Knowledge.terms knowledge) text = text).
  { induction (Knowledge.terms knowledge) as [| term terms IH]; [reflexivity|].
    cbn [fold_left]. rewrite apply_term_absent by (apply Hterms; left; reflexivity).
    apply IH. intros t Hin. apply Hterms. right. exact Hin. }
  rewrite Ht.
  induction (Knowledge.characters knowledge) as [| ch chars IH]; [reflexivity|].
  cbn [fold_left].
  rewrite apply_character_absent
    by (intros n Hn; apply (Hnames ch n); [left; reflexivity | exact Hn]).
  apply IH. intros ch' n Hin Hn. apply (Hnames ch' n); [right; exact Hin | exact Hn].
Qed.

Lemma glossary_leaves_unrelated_text_witness :
  _apply_glossary_and_name_fixes "hello" Examples.glossary = "hello"%string.
Proof.
  apply (glossary_leaves_unrelated_text "hello" Examples.glossary).
  - intros term [<- | [<- | []]]; [right; reflexivity | left; reflexivity].
  - intros character n [<- | []] [<- | [<- | []]]; [right; reflexivity | left; reflexivity].
Defined.

Example glossary_replaces_terms_then_names :
  _apply_glossary_and_name_fixes "Luffy eats niku"
    (Knowledge.mkKnowledge (Knowledge.mkMeta "t" "T" "ja" "en")
       [Knowledge.mkCharacter "c1" ["Luffy"; ""] "Ruffy" None None None None]
       [Knowledge.mkTerm "niku" "meat" None None []; Knowledge.mkTerm "" "x" None None []]
       None)
  = "Ruffy eats meat"%string.
Proof. reflexivity. Qed.
End GlossaryMore.
